(** * Render notifications: the render-state tracker of telegram_notifications.py

    A shallow embedding of the event handler [on_render_event] and of the
    functions it calls, followed by the properties of the render-progress
    tracker.

    Conventions of the embedding.
    - Python floats (frame times, clock readings in seconds, durations) are
      exact rationals [Qc]; Python ints are [Z]; [len] is a [nat].
    - Module globals ([CURRENT_RENDERS], [SESSION_RENDERS],
      [NOTIFICATIONS_ENABLED]) are fields of a [World] that every function
      threads; the world also holds the log of outgoing HTTP requests and of
      lines written to the log widget.
    - The host is an oracle: the k-th reading of [datetime.now()], the outcome
      of the k-th [requests.post], the files matched by [glob.glob], and
      whether a frame file can be converted.
    - Python exceptions are the [Raise] outcome of the monad [M]; state changes
      made before a raise persist, as in Python.
    - Chat texts are kept as structured values (one constructor per f-string
      template, one argument per interpolated value). *)

From Stdlib Require Import QArith Qcanon Qround ZArith Lia Ascii.
From stdpp Require Import base numbers list strings gmap sets sorting.

Local Open Scope Z_scope.
#[local] Set Warnings "-clear-no-such-hyp".

(** ** Python numerics *)

(** [int(x)] on a float: truncation towards zero. *)
Definition py_int (x : Qc) : Z := Z.quot (Qnum x) (Z.pos (Qden x)).

(** [x // d] and [x % d] on floats (floor division and its remainder). *)
Definition py_floordiv (x d : Qc) : Z := Qfloor (x / d)%Qc.
Definition py_mod (x d : Qc) : Qc := (x - d * Qc_of_Z (py_floordiv x d))%Qc.

(** [max(0, x)]: the second argument wins only when it is strictly larger. *)
Definition py_max0 (x : Qc) : Qc := if decide (0 < x)%Qc then x else 0%Qc.

(** [round(x)] with no digits: nearest integer, ties to the even one. *)
Definition py_round (x : Qc) : Z :=
  let f := Qfloor x in
  let d := (x - Qc_of_Z f)%Qc in
  let half := Q2Qc (1 # 2) in
  if decide (d < half)%Qc then f
  else if decide (half < d)%Qc then f + 1
  else if Z.even f then f else f + 1.

(** ** format_time and get_progress_bar *)

Inductive time_text :=
| Hms (hours minutes secs : Z)   (* "{hours}h {minutes}m {secs}s" *)
| Ms (minutes secs : Z)          (* "{minutes}m {secs}s" *)
| Secs (secs : Z).               (* "{secs}s" *)

Definition format_time (seconds : Qc) : time_text :=
  let hours := py_floordiv seconds (Qc_of_Z 3600) in
  let minutes := py_floordiv (py_mod seconds (Qc_of_Z 3600)) (Qc_of_Z 60) in
  let secs := py_int (py_mod seconds (Qc_of_Z 60)) in
  if decide (0 < hours) then Hms hours minutes secs
  else if decide (0 < minutes) then Ms minutes secs
  else Secs secs.

(** The bar is a list of cells, [true] for a filled square.  A string
    multiplied by a negative count is empty, hence [Z.to_nat]. *)
Definition get_progress_bar (progress : Qc) : list bool :=
  let bar_length := 10 in
  let filled := py_round (Qc_of_Z bar_length * progress)%Qc in
  replicate (Z.to_nat filled) true ++ replicate (Z.to_nat (bar_length - filled)) false.

(** ** The host's node objects *)

(** Result of [node.parm(name)] followed by [.eval()]. *)
Inductive parm (A : Type) :=
| NoParm          (* node.parm(name) is None *)
| EvalRaises      (* .eval() raises *)
| Evals (a : A).
Arguments NoParm {A}.
Arguments EvalRaises {A}.
Arguments Evals {A} a.

(** A node referenced by a render node: whether it is the render node itself,
    and its 'picture' parameter. *)
Record RefNode := { is_self : bool; picture : parm string }.

(** What the handler reads from a [hou.Node].  [path()] is the key of every
    table and the fallback of [get_node_name]; a [Node] is a node on which
    that call returns, and [HostNode] below adds the node on which it
    raises. *)
Record Node := {
  path : string;
  name : option string;        (* None: node.name() raises *)
  type_name : option string;   (* None: node.type().name() raises *)
  trange : parm Z;
  f1 : parm Qc;
  f2 : parm Qc;
  vm_picture : parm string;
  references : list RefNode
}.

Inductive ropRenderEventType := PreRender | PostFrame | PostRender | OtherEvent.

Global Instance ropRenderEventType_eq_dec : EqDecision ropRenderEventType.
Proof. solve_decision. Defined.

Inductive Exn :=
| ZeroDivisionError
| TypeError
| NameError
| AttributeError
| OperationFailed
| ConnectionError
| KeyError
| IndexError.

Definition get_render_engine (node : Node) : string :=
  match type_name node with
  | Some t =>
      if decide (t = "ifd") then "Mantra"
      else if decide (t = "usdrender_rop") then "Karma"
      else t
  | None => "Unknown"
  end.

Definition get_node_name (node : Node) : string :=
  match name node with
  | Some n => n
  | None => path node
  end.

Definition get_sequence_range (node : Node) : Qc * Qc :=
  let fallback := (Qc_of_Z 1, Qc_of_Z 1) in
  match trange node with
  | NoParm => fallback
  | EvalRaises => fallback
  | Evals t =>
      if decide (t = 0) then fallback
      else match f1 node with
           | Evals start =>
               match f2 node with
               | Evals end_ => (start, end_)
               | _ => fallback
               end
           | _ => fallback
           end
  end.

(** ** Chat texts, requests and the host oracle *)

(** One constructor per message template of the source; the arguments are the
    interpolated values, in the order of the template. *)
Inductive Message :=
| RenderStarted (engine node_name : string) (first last total : Z)
| RenderInProgress (engine node_name : string) (frames_done : nat) (total : Z)
    (progress_percent : Qc) (progress_bar : list bool) (elapsed remaining : time_text)
    (completion_time : Qc) (average_per_frame : time_text)
| RenderInterrupted (engine node_name : string) (frames_completed : nat) (expected : Z)
    (completion_percent : Qc) (elapsed : time_text) (last_frame : option Qc)
| RenderComplete (engine node_name : string) (first last : Z) (frames_completed : nat)
    (duration average : time_text) (total_renders : Z)
| RenderFinished (node_name : string) (total_time : time_text) (frames_completed : nat)
    (total : Z)
| RenderFailed (engine node_name : string) (elapsed : time_text)
| ErrorDetails (node_name : string) (error : Exn).

(** [CHAT_ID] is either the list under "CHAT_IDS" or the scalar "CHAT_ID". *)
Inductive ChatId := ChatList (ids : list string) | ChatOne (id : string).

Inductive Request :=
| sendMessage (chat_id : string) (text : Message)
| editMessageText (chat_id : ChatId) (message_id : Z) (text : Message)
| sendPhoto (chat_id : ChatId) (frame : string)
| sendAnimation (chat_id : ChatId) (frames : list string).

Inductive Effect :=
| Post (r : Request)
| Log (line : string).

(** Outcome of one [requests.post]: a response with its [ok] flag and the
    message id found in its JSON body (if any), or a network exception. *)
Inductive http_result :=
| Responds (ok : bool) (json_message_id : option Z)
| NetworkError.

(** Outcome of preparing one frame file for the preview. *)
Inductive frame_result :=
| Converted        (* convert_frame_to_rgb and resize_frame succeed *)
| Unreadable       (* convert_frame_to_rgb returns None *)
| ResizeRaises.    (* resize_frame raises *)

Global Instance frame_result_eq_dec : EqDecision frame_result.
Proof. solve_decision. Defined.

(** [frame_pattern] stands for lines 548-551, which turn the output path into
    a glob pattern with os.path.dirname, basename, splitext and join; these
    depend on the platform and no property below depends on the pattern. *)
Record Host := {
  clock : nat → Qc;               (* k-th reading of datetime.now(), in seconds *)
  http : nat → http_result;       (* outcome of the k-th requests.post *)
  glob : string → list string;    (* glob.glob(pattern) *)
  convert : string → frame_result;
  frame_pattern : string → string
}.

(** ** Program state *)

Record RenderState := {
  start_time : Qc;
  message_id : option Z;
  completed_frames : gset Qc;
  total_frames : Z;
  start_frame : Z;
  end_frame : Z;
  last_update_time : Qc;
  update_interval : Qc
}.

Record Stats := {
  times : list Qc;
  total_renders : Z;
  frames_rendered : Z;
  total_time : Qc
}.

Record World := {
  NOTIFICATIONS_ENABLED : bool;
  SESSION_RENDERS : gmap string Stats;
  CURRENT_RENDERS : gmap string RenderState;
  ticks : nat;             (* number of clock readings so far *)
  posts : nat;             (* number of HTTP posts so far *)
  outbox : list Effect     (* requests and log lines, oldest first *)
}.

Definition set_SESSION_RENDERS (f : gmap string Stats → gmap string Stats) (w : World) : World :=
  {| NOTIFICATIONS_ENABLED := NOTIFICATIONS_ENABLED w;
     SESSION_RENDERS := f (SESSION_RENDERS w);
     CURRENT_RENDERS := CURRENT_RENDERS w;
     ticks := ticks w; posts := posts w; outbox := outbox w |}.

Definition set_CURRENT_RENDERS (f : gmap string RenderState → gmap string RenderState)
    (w : World) : World :=
  {| NOTIFICATIONS_ENABLED := NOTIFICATIONS_ENABLED w;
     SESSION_RENDERS := SESSION_RENDERS w;
     CURRENT_RENDERS := f (CURRENT_RENDERS w);
     ticks := ticks w; posts := posts w; outbox := outbox w |}.

Definition set_message_id (m : option Z) (s : RenderState) : RenderState :=
  {| start_time := start_time s; message_id := m;
     completed_frames := completed_frames s; total_frames := total_frames s;
     start_frame := start_frame s; end_frame := end_frame s;
     last_update_time := last_update_time s; update_interval := update_interval s |}.

Definition set_completed_frames (c : gset Qc) (s : RenderState) : RenderState :=
  {| start_time := start_time s; message_id := message_id s;
     completed_frames := c; total_frames := total_frames s;
     start_frame := start_frame s; end_frame := end_frame s;
     last_update_time := last_update_time s; update_interval := update_interval s |}.

Definition set_last_update_time (t : Qc) (s : RenderState) : RenderState :=
  {| start_time := start_time s; message_id := message_id s;
     completed_frames := completed_frames s; total_frames := total_frames s;
     start_frame := start_frame s; end_frame := end_frame s;
     last_update_time := t; update_interval := update_interval s |}.

(** ** The state-and-exception monad *)

Inductive outcome (A : Type) :=
| Return (a : A)
| Raise (e : Exn).
Arguments Return {A} a.
Arguments Raise {A} e.

Definition M (A : Type) : Type := World → World * outcome A.

Global Instance M_ret : MRet M := λ A a w, (w, Return a).

Global Instance M_bind : MBind M := λ A B f c w,
  match c w with
  | (w', Return a) => f a w'
  | (w', Raise e) => (w', Raise e)
  end.

Definition raise {A} (e : Exn) : M A := λ w, (w, Raise e).

(** [try: body / except Exception as e: handler e]. *)
Definition try_except {A} (body : M A) (handler : Exn → M A) : M A := λ w,
  match body w with
  | (w', Return a) => (w', Return a)
  | (w', Raise e) => handler e w'
  end.

Definition get_world : M World := λ w, (w, Return w).
Definition modify (f : World → World) : M unit := λ w, (f w, Return tt).

Definition emit (e : Effect) : M unit := modify (λ w,
  {| NOTIFICATIONS_ENABLED := NOTIFICATIONS_ENABLED w;
     SESSION_RENDERS := SESSION_RENDERS w;
     CURRENT_RENDERS := CURRENT_RENDERS w;
     ticks := ticks w; posts := posts w; outbox := outbox w ++ [e] |}).

(** [ui.log_message(line)]. *)
Definition log_message (line : string) : M unit := emit (Log line).

(** One more clock reading taken. *)
Definition tick (w : World) : World :=
  {| NOTIFICATIONS_ENABLED := NOTIFICATIONS_ENABLED w;
     SESSION_RENDERS := SESSION_RENDERS w;
     CURRENT_RENDERS := CURRENT_RENDERS w;
     ticks := S (ticks w); posts := posts w; outbox := outbox w |}.

(** [x / y] on numbers. *)
Definition py_div (x y : Qc) : M Qc :=
  if decide (y = 0%Qc) then raise ZeroDivisionError else mret (x / y)%Qc.

Section Handler.
Variable CHAT_ID : ChatId.
Variable host : Host.

(** [datetime.now()], as seconds. *)
Definition datetime_now : M Qc := λ w, (tick w, Return (clock host (ticks w))).

(** [requests.post(url, data=...)]: the request is recorded, then the host
    answers or the call raises. *)
Definition requests_post (r : Request) : M (bool * option Z) := λ w,
  let w' := {| NOTIFICATIONS_ENABLED := NOTIFICATIONS_ENABLED w;
               SESSION_RENDERS := SESSION_RENDERS w;
               CURRENT_RENDERS := CURRENT_RENDERS w;
               ticks := ticks w; posts := S (posts w);
               outbox := outbox w ++ [Post r] |} in
  match http host (posts w) with
  | Responds ok mid => (w', Return (ok, mid))
  | NetworkError => (w', Raise ConnectionError)
  end.

(** One iteration of the body shared by both branches of
    [send_telegram_message]: [Some id] when the function returns there. *)
Definition send_to_chat (chat_id : string) (message : Message) : M (option Z) :=
  try_except
    ('(ok, json_message_id) ← requests_post (sendMessage chat_id message);
     if (ok : bool)
     then match json_message_id with
          | Some mid => mret (Some mid)
          | None => raise KeyError
          end
     else mret None)
    (λ _, log_message "Error sending message";; mret None).

Fixpoint send_to_chats (chat_ids : list string) (message : Message) : M (option Z) :=
  match chat_ids with
  | [] => mret None
  | chat_id :: rest =>
      r ← send_to_chat chat_id message;
      match r with
      | Some mid => mret (Some mid)
      | None => send_to_chats rest message
      end
  end.

Definition send_telegram_message (message : Message) : M (option Z) :=
  match CHAT_ID with
  | ChatList ids => send_to_chats ids message
  | ChatOne id => send_to_chat id message
  end.

(** ** Preview media: send_telegram_animation *)

(** [sorted(names)] on strings (insertion sort on the code-point order). *)
Fixpoint insert_sorted (x : string) (l : list string) : list string :=
  match l with
  | [] => [x]
  | y :: l' => if String.leb x y then x :: l else y :: insert_sorted x l'
  end.

Definition sorted (l : list string) : list string := foldr insert_sorted [] l.

(** [list(range(start, stop, step))] for a positive [step] and natural
    bounds ([range] raises for step 0, which the caller's guard excludes). *)
Definition py_range (start stop step : nat) : list nat :=
  (λ i, start + i * step)%nat <$> seq 0 ((stop - start + step - 1) / step).

(** [sorted(set(l))] on indices. *)
Fixpoint insert_unique (x : nat) (l : list nat) : list nat :=
  match l with
  | [] => [x]
  | y :: l' =>
      if (x <? y)%nat then x :: l
      else if (x =? y)%nat then l
      else y :: insert_unique x l'
  end.

Definition sorted_set (l : list nat) : list nat := foldr insert_unique [] l.

(** The index list built when more than 30 files match ([n] is their number,
    so the subtractions stay natural). *)
Definition sample_indices (n : nat) : list nat :=
  let sample_indices := py_range 0 10 1 in
  let middle_frames := py_range 10 (n - 10) ((n - 20) / 10) in
  (sample_indices ++ middle_frames) ++ py_range (n - 10) n 1.

(** [[frames[i] for i in sorted(set(sample_indices))]]; [None] stands for an
    IndexError. *)
Definition sample_frames (frames : list string) : option (list string) :=
  mapM (λ i, frames !! i) (sorted_set (sample_indices (length frames))).

(** The loop that fills [images]: the files whose image is kept, in order. *)
Fixpoint collect_images (frames : list string) : M (list string) :=
  match frames with
  | [] => mret []
  | frame_path :: rest =>
      match convert host frame_path with
      | Converted =>
          images ← collect_images rest;
          mret (frame_path :: images)
      | Unreadable =>
          log_message "Error converting frame";;
          collect_images rest
      | ResizeRaises =>
          log_message "Error processing frame";;
          collect_images rest
      end
  end.

Definition send_telegram_animation (node : Node) (frames_path_pattern : string) : M bool :=
  let frames := sorted (glob host frames_path_pattern) in
  match frames with
  | [] => log_message "No frames found matching pattern";; mret false
  | [frame_path] =>
      (* temp_gif is unbound on this path, so the except clause raises *)
      try_except
        (log_message "Processing single frame";;
         match convert host frame_path with
         | Unreadable =>
             log_message "Error converting frame";;
             log_message "Failed to convert frame to RGB";;
             mret false
         | ResizeRaises => raise AttributeError
         | Converted =>
             log_message "Sending single frame to Telegram...";;
             '(ok, _) ← requests_post (sendPhoto CHAT_ID frame_path);
             if (ok : bool) then mret true
             else log_message "Failed to send single frame";; mret false
         end)
        (λ _, log_message "Error creating/sending animation";; raise NameError)
  | _ =>
      try_except
        (frames ← (if decide (30 < length frames)%nat
                   then match sample_frames frames with
                        | Some sampled => mret sampled
                        | None => raise IndexError
                        end
                   else mret frames);
         log_message "Processing frames for preview...";;
         images ← collect_images frames;
         match images with
         | [] => log_message "No frames were successfully processed";; mret false
         | _ =>
             log_message "Creating GIF...";;
             log_message "Sending animation to Telegram...";;
             '(ok, _) ← requests_post (sendAnimation CHAT_ID images);
             (if (ok : bool) then mret tt else log_message "Failed to send animation");;
             mret true
         end)
        (λ _, log_message "Error creating/sending animation";; mret false)
  end.

(** ** Session statistics *)

Definition empty_stats : Stats :=
  {| times := []; total_renders := 0; frames_rendered := 0; total_time := 0%Qc |}.

(** The four updates of one entry, then the [pop(0)] when more than ten
    durations are held. *)
Definition record_render (render_time : Qc) (frame_count : Z) (s : Stats) : Stats :=
  let appended := times s ++ [render_time] in
  {| times := if decide (10 < length appended)%nat then drop 1 appended else appended;
     total_renders := total_renders s + 1;
     frames_rendered := frames_rendered s + frame_count;
     total_time := (total_time s + render_time)%Qc |}.

Definition update_render_stats (node_path : string) (render_time : Qc) (frame_count : Z)
    : M unit :=
  modify (set_SESSION_RENDERS (λ session,
    let session :=
      match session !! node_path with
      | None => <[node_path := empty_stats]> session
      | Some _ => session
      end in
    alter (record_render render_time frame_count) node_path session)).

Record StatsView := {
  average : time_text;
  view_total_renders : Z;
  last_render : option time_text   (* None is the text "N/A" *)
}.

Definition get_render_stats (node_path : string) : M (option StatsView) :=
  w ← get_world;
  match SESSION_RENDERS w !! node_path with
  | None => mret None
  | Some stats =>
      match times stats with
      | [] => mret None
      | _ =>
          let total_frames := frames_rendered stats in
          let total_time := total_time stats in
          avg_per_frame ← (if decide (0 < total_frames)
                           then py_div total_time (Qc_of_Z total_frames)
                           else mret 0%Qc);
          mret (Some {| average := format_time avg_per_frame;
                        view_total_renders := total_renders stats;
                        last_render := format_time <$> last (times stats) |})
      end
  end.

(** ** The render-state tracker *)

Definition initialize_render_state (node : Node) : M RenderState :=
  let '(start, end_) := get_sequence_range node in
  let frame_count := py_int (end_ - start + Qc_of_Z 1)%Qc in
  now_start ← datetime_now;
  now_update ← datetime_now;
  mret {| start_time := now_start;
          message_id := None;
          completed_frames := ∅;
          total_frames := frame_count;
          start_frame := py_int start;
          end_frame := py_int end_;
          last_update_time := now_update;
          update_interval := Qc_of_Z 2 |}.

(** The source mutates the dictionary it is handed; here the new state is
    returned and the caller stores it back under the node path. *)
Definition should_update_progress (state : RenderState) : M (bool * RenderState) :=
  now ← datetime_now;
  let time_since_update := (now - last_update_time state)%Qc in
  if decide (update_interval state ≤ time_since_update)%Qc
  then mret (true, set_last_update_time now state)
  else mret (false, state).

(** Truth value of a message id ([None] and 0 are false). *)
Definition truthy (m : option Z) : option Z :=
  match m with
  | Some n => if decide (n = 0) then None else Some n
  | None => None
  end.

(** [max(completed_frames) if completed_frames else 'None']. *)
Definition last_completed (frames : gset Qc) : option Qc :=
  foldr (λ x acc, match acc with
                  | None => Some x
                  | Some y => Some (if decide (y < x)%Qc then x else y)
                  end) None (elements frames).

(** The edit of the tracked message used by the three PostRender branches:
    a failing post falls back to a fresh message. *)
Definition edit_or_send (mid : Z) (text : Message) : M unit :=
  try_except
    (requests_post (editMessageText CHAT_ID mid text);; mret tt)
    (λ _, send_telegram_message text;; mret tt).

(** Lines 540-547: where the rendered picture goes. *)
Definition output_path_of (node : Node) : M string :=
  match type_name node with
  | None => raise OperationFailed
  | Some t =>
      if decide (t = "ifd") then
        match vm_picture node with
        | Evals p => mret p
        | NoParm => raise AttributeError
        | EvalRaises => raise OperationFailed
        end
      else if decide (t = "usdrender_rop") then
        match last (filter (λ r, is_self r = false) (references node)) with
        | None => raise NameError
        | Some refNode =>
            match picture refNode with
            | Evals p => mret p
            | NoParm => raise AttributeError
            | EvalRaises => raise OperationFailed
            end
        end
      else raise NameError
  end.

(** Lines 539-557: the preview, with its own try/except. *)
Definition send_preview (node : Node) : M unit :=
  try_except
    (output_path ← output_path_of node;
     let base_pattern := frame_pattern host output_path in
     log_message "Searching for frames with pattern";;
     animation_sent ← send_telegram_animation node base_pattern;
     if (animation_sent : bool)
     then log_message "Animation preview sent successfully!"
     else mret tt)
    (λ _, log_message "Could not generate animation preview").

Definition on_PreRender (node : Node) : M unit :=
  let node_path := path node in
  w ← get_world;
  match CURRENT_RENDERS w !! node_path with
  | Some _ => mret tt
  | None =>
      state ← initialize_render_state node;
      modify (set_CURRENT_RENDERS (<[node_path := state]>));;
      let message :=
        RenderStarted (get_render_engine node) (get_node_name node)
          (start_frame state) (end_frame state) (total_frames state) in
      msg_id ← send_telegram_message message;
      match truthy msg_id with
      | Some _ => modify (set_CURRENT_RENDERS (alter (set_message_id msg_id) node_path))
      | None => mret tt
      end
  end.

(** Lines 471-503: the progress report of a PostFrame event. *)
Definition report_progress (node : Node) (state : RenderState) : M unit :=
  now ← datetime_now;
  let duration := (now - start_time state)%Qc in
  let frames_done := size (completed_frames state) in
  let total_frames := total_frames state in
  avg_time_per_frame ← (if decide (0 < frames_done)%nat
                        then py_div duration (Qc_of_Z (Z.of_nat frames_done))
                        else mret 0%Qc);
  let estimated_total := (avg_time_per_frame * Qc_of_Z total_frames)%Qc in
  let time_remaining := py_max0 (estimated_total - duration) in
  fraction ← py_div (Qc_of_Z (Z.of_nat frames_done)) (Qc_of_Z total_frames);
  let progress_percent := (fraction * Qc_of_Z 100)%Qc in
  now ← datetime_now;
  let completion_time := (now + time_remaining)%Qc in
  fraction ← py_div (Qc_of_Z (Z.of_nat frames_done)) (Qc_of_Z total_frames);
  let progress_bar := get_progress_bar fraction in
  let message :=
    RenderInProgress (get_render_engine node) (get_node_name node)
      frames_done total_frames progress_percent progress_bar
      (format_time duration) (format_time time_remaining)
      completion_time (format_time avg_time_per_frame) in
  match truthy (message_id state) with
  | Some mid =>
      try_except
        (requests_post (editMessageText CHAT_ID mid message);; mret tt)
        (λ _, log_message "Error updating frame progress")
  | None => mret tt
  end.

Definition on_PostFrame (node : Node) (frame_time : Qc) : M unit :=
  let node_path := path node in
  w ← get_world;
  match CURRENT_RENDERS w !! node_path with
  | None => mret tt
  | Some state =>
      let state := set_completed_frames ({[frame_time]} ∪ completed_frames state) state in
      modify (set_CURRENT_RENDERS (<[node_path := state]>));;
      '(update, state) ← should_update_progress state;
      modify (set_CURRENT_RENDERS (<[node_path := state]>));;
      if (update : bool) then report_progress node state else mret tt
  end.

(** Lines 511-614: the three-way report of a PostRender event. *)
Definition report_outcome (node : Node) (state : RenderState) (render_duration : Qc)
    : M unit :=
  let node_path := path node in
  let frames_completed := size (completed_frames state) in
  let expected_frames := total_frames state in
  if decide (0 < Z.of_nat frames_completed < expected_frames) then
    fraction ← py_div (Qc_of_Z (Z.of_nat frames_completed)) (Qc_of_Z expected_frames);
    let error_message :=
      RenderInterrupted (get_render_engine node) (get_node_name node)
        frames_completed expected_frames (fraction * Qc_of_Z 100)%Qc
        (format_time render_duration) (last_completed (completed_frames state)) in
    match truthy (message_id state) with
    | Some mid => edit_or_send mid error_message
    | None => mret tt
    end
  else if decide (Z.of_nat frames_completed = expected_frames) then
    update_render_stats node_path render_duration (Z.of_nat frames_completed);;
    stats ← get_render_stats node_path;
    send_preview node;;
    match stats with
    | None => raise TypeError
    | Some stats =>
        let message :=
          RenderComplete (get_render_engine node) (get_node_name node)
            (start_frame state) (end_frame state) frames_completed
            (format_time render_duration) (average stats)
            (view_total_renders stats) in
        match truthy (message_id state) with
        | Some mid => edit_or_send mid message
        | None => send_telegram_message message;; mret tt
        end;;
        let completion_message :=
          RenderFinished (get_node_name node) (format_time render_duration)
            frames_completed (total_frames state) in
        send_telegram_message completion_message;; mret tt
    end
  else
    let error_message :=
      RenderFailed (get_render_engine node) (get_node_name node)
        (format_time render_duration) in
    match truthy (message_id state) with
    | Some mid => edit_or_send mid error_message
    | None => send_telegram_message error_message;; mret tt
    end.

Definition on_PostRender (node : Node) : M unit :=
  let node_path := path node in
  w ← get_world;
  match CURRENT_RENDERS w !! node_path with
  | None => mret tt
  | Some state =>
      now ← datetime_now;
      let render_duration := (now - start_time state)%Qc in
      report_outcome node state render_duration;;
      modify (set_CURRENT_RENDERS (delete node_path))
  end.

(** The body of the [try] of [on_render_event]. *)
Definition on_render_event_try (node : Node) (event_type : ropRenderEventType)
    (frame_time : Qc) : M unit :=
  match event_type with
  | PreRender => on_PreRender node
  | PostFrame => on_PostFrame node frame_time
  | PostRender => on_PostRender node
  | OtherEvent => mret tt
  end.

(** The [except Exception as e] clause of [on_render_event], for a node whose
    [path()] call returns; [on_render_event_host_except] below is the clause
    with the calls of [node.path()] at lines 379 and 631-632 written out. *)
Definition on_render_event_except (node : Node) (e : Exn) : M unit :=
  send_telegram_message (ErrorDetails (get_node_name node) e);;
  w ← get_world;
  match CURRENT_RENDERS w !! path node with
  | Some _ => modify (set_CURRENT_RENDERS (delete (path node)))
  | None => mret tt
  end.

Definition on_render_event (node : Node) (event_type : ropRenderEventType)
    (frame_time : Qc) : M unit :=
  w ← get_world;
  if NOTIFICATIONS_ENABLED w
  then try_except (on_render_event_try node event_type frame_time)
                  (on_render_event_except node)
  else mret tt.

End Handler.

(** ** Sessions: the module's initial state and runs of events *)

(** Lines 14-16 of the module. *)
Definition initial_world : World :=
  {| NOTIFICATIONS_ENABLED := false;
     SESSION_RENDERS := ∅;
     CURRENT_RENDERS := ∅;
     ticks := 0; posts := 0; outbox := [] |}.

(** The GUI toggle (line 961). *)
Definition toggle_notifications (w : World) : World :=
  {| NOTIFICATIONS_ENABLED := negb (NOTIFICATIONS_ENABLED w);
     SESSION_RENDERS := SESSION_RENDERS w;
     CURRENT_RENDERS := CURRENT_RENDERS w;
     ticks := ticks w; posts := posts w; outbox := outbox w |}.

Record Event := {
  ev_node : Node;
  ev_type : ropRenderEventType;
  ev_frame : Qc
}.

Section Runs.
Variable CHAT_ID : ChatId.
Variable host : Host.

(** The world after the host delivers one event. *)
Definition handle (w : World) (e : Event) : World :=
  (on_render_event CHAT_ID host (ev_node e) (ev_type e) (ev_frame e) w).1.

Definition run (w : World) (evs : list Event) : World := foldl handle w evs.

(** The worlds reached after each event of a run, in order. *)
Fixpoint trace (w : World) (evs : list Event) : list World :=
  match evs with
  | [] => []
  | e :: rest => handle w e :: trace (handle w e) rest
  end.

(** What an operation added to the outbox. *)
Definition new_effects (w w' : World) : list Effect :=
  drop (length (outbox w)) (outbox w').

End Runs.

(** The texts carried by the message requests of a list of effects. *)
Definition texts (l : list Effect) : list Message :=
  omap (λ e, match e with
             | Post (sendMessage _ m) => Some m
             | Post (editMessageText _ _ m) => Some m
             | _ => None
             end) l.

(** A session's calls to [update_render_stats], oldest first. *)
Definition record_calls (calls : list (string * Qc * Z)) (w : World) : World :=
  foldl (λ w c, (update_render_stats c.1.1 c.1.2 c.2 w).1) w calls.

Definition Qc_sum (l : list Qc) : Qc := foldr Qcplus 0%Qc l.
Definition Z_sum (l : list Z) : Z := foldr Z.add 0 l.

(** ** Vocabulary of the properties *)

(** What a chat text announces. *)
Inductive Verdict :=
| Started | Progress | Interrupted | Complete | Finished | Failed | ErrorReport.

Definition verdict (m : Message) : Verdict :=
  match m with
  | RenderStarted _ _ _ _ _ => Started
  | RenderInProgress _ _ _ _ _ _ _ _ _ _ => Progress
  | RenderInterrupted _ _ _ _ _ _ _ => Interrupted
  | RenderComplete _ _ _ _ _ _ _ _ => Complete
  | RenderFinished _ _ _ _ => Finished
  | RenderFailed _ _ _ => Failed
  | ErrorDetails _ _ => ErrorReport
  end.

(** An effect that is a log line or a message request whose text satisfies [P]. *)
Definition says (P : Message → Prop) (e : Effect) : Prop :=
  match e with
  | Log _ => True
  | Post (sendMessage _ m) => P m
  | Post (editMessageText _ _ m) => P m
  | Post (sendPhoto _ _) => False
  | Post (sendAnimation _ _) => False
  end.

(** A preview media request. *)
Definition is_media (e : Effect) : Prop :=
  match e with
  | Post (sendPhoto _ _) => True
  | Post (sendAnimation _ _) => True
  | _ => False
  end.

(** An effect of the preview: a log line or a media request. *)
Definition preview_effect (e : Effect) : Prop :=
  match e with
  | Log _ => True
  | Post (sendPhoto _ _) => True
  | Post (sendAnimation _ _) => True
  | _ => False
  end.

(** At least one chat is configured, so [send_telegram_message] posts. *)
Definition configured (chat : ChatId) : Prop :=
  match chat with
  | ChatList ids => ids ≠ []
  | ChatOne _ => True
  end.

(** [w'] is [w] after some reporting: the render-state dictionary and the
    toggle are untouched, the outbox has grown by effects that satisfy [P]. *)
Record io_step (P : Effect → Prop) (w w' : World) : Prop := {
  io_enabled : NOTIFICATIONS_ENABLED w' = NOTIFICATIONS_ENABLED w;
  io_current : CURRENT_RENDERS w' = CURRENT_RENDERS w;
  io_grows : outbox w `prefix_of` outbox w';
  io_new : Forall P (new_effects w w')
}.

Definition io {A} (P : Effect → Prop) (c : M A) : Prop :=
  ∀ w, io_step P w (c w).1.

(** A computation that returns normally from every world. *)
Definition never_raises {A} (c : M A) : Prop :=
  ∀ w, ∃ a, (c w).2 = Return a.

(** The entry of a path after a session of calls, in closed form. *)
Definition stats_after (mine : list (string * Qc * Z)) : option Stats :=
  if decide (mine = []) then None
  else Some {| times := drop (length mine - 10) (mine.*1.*2);
               total_renders := Z.of_nat (length mine);
               frames_rendered := Z_sum (mine.*2);
               total_time := Qc_sum (mine.*1.*2) |}.

Global Instance Verdict_eq_dec : EqDecision Verdict.
Proof. solve_decision. Defined.

(** The announcements among a list of effects, in order. *)
Definition verdicts (l : list Effect) : list Verdict := verdict <$> texts l.

(** Some message request of [l] announces [v]. *)
Definition reports (v : Verdict) (l : list Effect) : Prop := v ∈ verdicts l.

Global Instance reports_dec v l : Decision (reports v l).
Proof. unfold reports. apply _. Defined.

(** The tracked message [mid] is edited to a text that announces [v]. *)
Definition edits (chat : ChatId) (mid : Z) (v : Verdict) (l : list Effect) : Prop :=
  ∃ m, verdict m = v ∧ Post (editMessageText chat mid m) ∈ l.

(** A fresh message announcing [v] is sent to some chat. *)
Definition sends (v : Verdict) (l : list Effect) : Prop :=
  ∃ chat m, verdict m = v ∧ Post (sendMessage chat m) ∈ l.

(** The effects allowed in each branch of the PostRender report, for [n]
    completed frames out of [T]. *)
Definition outcome_effect (n T : Z) (e : Effect) : Prop :=
  if decide (0 < n < T) then says (λ m, verdict m = Interrupted) e
  else if decide (n = T)
       then preview_effect e ∨ says (λ m, verdict m = Complete ∨ verdict m = Finished) e
       else says (λ m, verdict m = Failed) e.


(** [len(state['completed_frames'])] of a tracked node. *)
Definition frames_done (w : World) (node_path : string) : option nat :=
  (λ st, size (completed_frames st)) <$> CURRENT_RENDERS w !! node_path.

(** [x] is an integer of [lo..hi]. *)
Definition integral_in (lo hi : Z) (x : Qc) : Prop :=
  ∃ z, x = Qc_of_Z z ∧ lo ≤ z ≤ hi.

(** Every PostFrame event of the run carries an integral frame time within
    start_frame..end_frame of the state it meets. *)
Fixpoint frames_in_range (CHAT_ID : ChatId) (host : Host) (w : World) (evs : list Event)
    : Prop :=
  match evs with
  | [] => True
  | e :: rest =>
      (ev_type e = PostFrame →
       ∀ st, CURRENT_RENDERS w !! path (ev_node e) = Some st →
             integral_in (start_frame st) (end_frame st) (ev_frame e))
      ∧ frames_in_range CHAT_ID host (handle CHAT_ID host w e) rest
  end.

(** The integers of start_frame..end_frame, as [initialize_render_state]
    would compute them for the node, number at most its total_frames. *)
Definition range_fits (node : Node) : Prop :=
  let start := (get_sequence_range node).1 in
  let end_ := (get_sequence_range node).2 in
  Z.max 0 (py_int end_ - py_int start + 1) ≤ py_int (end_ - start + Qc_of_Z 1)%Qc.

(** "frame set size ≤ total frame count", for every tracked node. *)
Definition frame_bound (w : World) : Prop :=
  ∀ node_path st, CURRENT_RENDERS w !! node_path = Some st →
                  Z.of_nat (size (completed_frames st)) ≤ total_frames st.

(** The invariant that carries the bound through a run. *)
Definition frames_fit (st : RenderState) : Prop :=
  (∀ x, x ∈ completed_frames st → integral_in (start_frame st) (end_frame st) x)
  ∧ Z.max 0 (end_frame st - start_frame st + 1) ≤ total_frames st.

(** An edit of the tracked message with a progress report. *)
Definition is_progress_edit (e : Effect) : bool :=
  match e with
  | Post (editMessageText _ _ m) => bool_decide (verdict m = Progress)
  | _ => false
  end.

Definition progress_edited (l : list Effect) : bool := existsb is_progress_edit l.

(** The clock readings, taken by [should_update_progress], of the PostFrame
    events of a run that edited the tracked message with a progress report. *)
Fixpoint progress_edit_times (CHAT_ID : ChatId) (host : Host) (node : Node)
    (frame_times : list Qc) (w : World) : list Qc :=
  match frame_times with
  | [] => []
  | ft :: rest =>
      let w' := handle CHAT_ID host w
                  {| ev_node := node; ev_type := PostFrame; ev_frame := ft |} in
      (if progress_edited (new_effects w w') then [clock host (ticks w)] else [])
      ++ progress_edit_times CHAT_ID host node rest w'
  end.

(** Consecutive instants of [l] are at least [gap] apart. *)
Fixpoint spaced (gap : Qc) (l : list Qc) : Prop :=
  match l with
  | a :: rest =>
      match rest with
      | b :: _ => (gap ≤ b - a)%Qc ∧ spaced gap rest
      | [] => True
      end
  | [] => True
  end.

(** Where [get_sequence_range] takes its (1, 1) exit. *)
Definition falls_back (node : Node) : Prop :=
  trange node = NoParm ∨ trange node = EvalRaises ∨ trange node = Evals 0
  ∨ (∀ start, f1 node ≠ Evals start) ∨ (∀ end_, f2 node ≠ Evals end_).

(** [e] is recorded by every run of [c]. *)
Definition posts_in {A} (e : Effect) (c : M A) : Prop :=
  ∀ w, e ∈ new_effects w (c w).1.

(** ** Concrete sessions *)

(** A host whose clock advances three seconds per reading, whose posts all
    succeed with message id 77, and with two rendered files on disk. *)
Definition demo_host : Host :=
  {| clock := λ k, Qc_of_Z (3 * Z.of_nat k);
     http := λ _, Responds true (Some 77);
     glob := λ _, ["beauty.0002.exr"; "beauty.0001.exr"];
     convert := λ _, Converted;
     frame_pattern := λ output_path, output_path |}.

(** The same host with the chat service unreachable. *)
Definition offline_host : Host :=
  {| clock := clock demo_host;
     http := λ _, NetworkError;
     glob := glob demo_host;
     convert := convert demo_host;
     frame_pattern := frame_pattern demo_host |}.

Definition demo_chat : ChatId := ChatOne "chat".

(** A Mantra node rendering the frame range [first, last]. *)
Definition mantra (first last : Qc) : Node :=
  {| path := "/out/mantra1"; name := Some "mantra1"; type_name := Some "ifd";
     trange := Evals 1; f1 := Evals first; f2 := Evals last;
     vm_picture := Evals "render/beauty.$F4.exr"; references := [] |}.

Definition event (node : Node) (t : ropRenderEventType) (frame : Z) : Event :=
  {| ev_node := node; ev_type := t; ev_frame := Qc_of_Z frame |}.

Definition enabled_world : World := toggle_notifications initial_world.

(** A whole render of frames 1..2. *)
Definition full_render : list Event :=
  [event (mantra (Qc_of_Z 1) (Qc_of_Z 2)) PreRender 0;
   event (mantra (Qc_of_Z 1) (Qc_of_Z 2)) PostFrame 1;
   event (mantra (Qc_of_Z 1) (Qc_of_Z 2)) PostFrame 2;
   event (mantra (Qc_of_Z 1) (Qc_of_Z 2)) PostRender 0].

(** Frames 1..2: the render has started and frame 1 is done. *)
Definition mantra_1_2 : Node := mantra (Qc_of_Z 1) (Qc_of_Z 2).
Definition world_one_of_two : World :=
  run demo_chat demo_host enabled_world
    [event mantra_1_2 PreRender 0; event mantra_1_2 PostFrame 1].

(** First frame 2, last frame 1: an empty range, [total_frames] is 0. *)
Definition mantra_2_1 : Node := mantra (Qc_of_Z 2) (Qc_of_Z 1).
Definition world_empty_range : World :=
  run demo_chat demo_host enabled_world [event mantra_2_1 PreRender 0].

(** First frame 3, last frame 1: [total_frames] is -1. *)
Definition mantra_3_1 : Node := mantra (Qc_of_Z 3) (Qc_of_Z 1).

(** First frame 1/2, last frame 2: [total_frames] is 2 while start_frame..end_frame
    is 0..2. *)
Definition mantra_half_2 : Node := mantra (Q2Qc (1 # 2)) (Qc_of_Z 2).


(** A host with 31 rendered files on disk, listed last first. *)
Definition many_files_host : Host :=
  {| clock := clock demo_host;
     http := http demo_host;
     glob := λ _, rev ((λ i, String (Ascii.ascii_of_nat (65 + i)) ".exr") <$> seq 0 31);
     convert := convert demo_host;
     frame_pattern := frame_pattern demo_host |}.

(** ** Vocabulary of the further properties *)

(** The message id carried by a response that [send_telegram_message]
    returns on: an ok response whose JSON holds a message id. *)
Definition accepted (r : http_result) : option Z :=
  match r with
  | Responds true (Some mid) => Some mid
  | _ => None
  end.

(** The HTTP requests among a list of effects, in order. *)
Definition requests (l : list Effect) : list Request :=
  omap (λ e, match e with Post r => Some r | Log _ => None end) l.

(** Frames 1..2 with the chat service unreachable: the render has started
    (no message id could be stored) and frame 1 is done. *)
Definition world_offline_one_of_two : World :=
  run demo_chat offline_host enabled_world
    [event mantra_1_2 PreRender 0; event mantra_1_2 PostFrame 1].

(** A computation that leaves the session statistics alone. *)
Definition keeps_session {A} (c : M A) : Prop :=
  ∀ w, SESSION_RENDERS (c w).1 = SESSION_RENDERS w.

(** ** Callback registration (remove_all_callbacks, setup_render_callbacks) *)

Definition is_render_node (node : Node) : bool :=
  match type_name node with
  | Some t => bool_decide (t ∈ ["ifd"; "usdrender_rop"])
  | None => false
  end.

(** Calls made on the nodes of the scene. *)
Inductive HostCall :=
| removeAllEventCallbacks (node_path : string)
| addRenderEventCallback (node_path : string).

(** Whether the host makes a call on a node fail, by node path. *)
Record SceneHost := {
  remove_raises : string → bool;
  add_raises : string → bool
}.

(** The module global [CALLBACK_REGISTRY], the calls made on nodes so far
    (oldest first), the log widget, and the paths shown in the list widget
    ([update_callbacks_list] fills it from [list(CALLBACK_REGISTRY)]). *)
Record Registration := {
  CALLBACK_REGISTRY : gset string;
  host_calls : list HostCall;
  ui_log : list string;
  callbacks_list : gset string
}.

(** Lines 637-641, for one node of the scene. *)
Definition remove_callbacks_of (sh : SceneHost) (r : Registration) (node : Node)
    : Registration :=
  if is_render_node node then
    {| CALLBACK_REGISTRY := CALLBACK_REGISTRY r;
       host_calls := host_calls r ++ [removeAllEventCallbacks (path node)];
       ui_log := if remove_raises sh (path node)
                 then ui_log r ++ ["Error removing callbacks"] else ui_log r;
       callbacks_list := callbacks_list r |}
  else r.

Definition remove_all_callbacks (sh : SceneHost) (scene : list Node) (r : Registration)
    : Registration :=
  let r := foldl (remove_callbacks_of sh) r scene in
  {| CALLBACK_REGISTRY := ∅;
     host_calls := host_calls r;
     ui_log := ui_log r;
     callbacks_list := ∅ |}.

(** Lines 649-656, for one node of the scene. *)
Definition add_callback_to (sh : SceneHost) (r : Registration) (node : Node)
    : Registration :=
  if is_render_node node then
    let node_path := path node in
    if decide (node_path ∈ CALLBACK_REGISTRY r) then r
    else if add_raises sh node_path then
      {| CALLBACK_REGISTRY := CALLBACK_REGISTRY r;
         host_calls := host_calls r ++ [addRenderEventCallback node_path];
         ui_log := ui_log r ++ ["Error adding callback"];
         callbacks_list := callbacks_list r |}
    else
      {| CALLBACK_REGISTRY := CALLBACK_REGISTRY r ∪ {[node_path]};
         host_calls := host_calls r ++ [addRenderEventCallback node_path];
         ui_log := ui_log r;
         callbacks_list := callbacks_list r |}
  else r.

Definition setup_render_callbacks (sh : SceneHost) (scene : list Node) (r : Registration)
    : Registration :=
  let r := remove_all_callbacks sh scene r in
  let r := foldl (add_callback_to sh) r scene in
  {| CALLBACK_REGISTRY := CALLBACK_REGISTRY r;
     host_calls := host_calls r;
     ui_log := ui_log r;
     callbacks_list := CALLBACK_REGISTRY r |}.

(** A render node on which the callback can be added. *)
Definition registrable (sh : SceneHost) (node : Node) : Prop :=
  is_render_node node = true ∧ add_raises sh (path node) = false.

Global Instance registrable_dec sh node : Decision (registrable sh node).
Proof. unfold registrable. apply _. Defined.

(** The calls a registration function added. *)
Definition new_calls (r r' : Registration) : list HostCall :=
  drop (length (host_calls r)) (host_calls r').

(** ** Chat ids typed by the user (load_config, configure_telegram_bot)

    Both places build the list with
    [[cid.strip() for cid in chat_id.split(",")]].  A [string] is read as a
    sequence of characters with codes below 256. *)

(** [s.split(",")]. *)
Fixpoint split_commas (s : string) : list string :=
  match s with
  | EmptyString => [EmptyString]
  | String c rest =>
      if decide (c = ","%char) then EmptyString :: split_commas rest
      else match split_commas rest with
           | first :: others => String c first :: others
           | [] => [String c EmptyString]
           end
  end.

(** [c.isspace()] for a character below 256: tab to carriage return, the
    four separators 28-31, space, next line (133) and no-break space (160). *)
Definition is_space (c : ascii) : bool :=
  let n := Ascii.nat_of_ascii c in
  ((9 <=? n) && (n <=? 13) || (28 <=? n) && (n <=? 32) || (n =? 133) || (n =? 160))%nat.

Fixpoint lstrip (s : string) : string :=
  match s with
  | EmptyString => EmptyString
  | String c rest => if is_space c then lstrip rest else s
  end.

Fixpoint rstrip (s : string) : string :=
  match s with
  | EmptyString => EmptyString
  | String c rest =>
      match rstrip rest with
      | EmptyString => if is_space c then EmptyString else String c EmptyString
      | kept => String c kept
      end
  end.

(** [s.strip()]. *)
Definition strip (s : string) : string := lstrip (rstrip s).

Definition parse_chat_ids (chat_id : string) : list string :=
  strip <$> split_commas chat_id.

(** The first and the last character of a string. *)
Definition first_char (s : string) : option ascii :=
  match s with
  | EmptyString => None
  | String c _ => Some c
  end.

Fixpoint last_char (s : string) : option ascii :=
  match s with
  | EmptyString => None
  | String c rest =>
      match last_char rest with
      | None => Some c
      | Some d => Some d
      end
  end.

(** A chat id as [parse_chat_ids] leaves it: no comma inside, no white space
    at either end. *)
Definition clean_id (s : string) : Prop :=
  Forall (λ c, c ≠ ","%char) (String.list_ascii_of_string s)
  ∧ (∀ c, first_char s = Some c → is_space c = false)
  ∧ (∀ c, last_char s = Some c → is_space c = false).

(** The number of commas of a string. *)
Fixpoint commas (s : string) : nat :=
  match s with
  | EmptyString => 0
  | String c rest => (if decide (c = ","%char) then 1 else 0) + commas rest
  end.

Definition comma_free (s : string) : Prop :=
  Forall (λ c, c ≠ ","%char) (String.list_ascii_of_string s).

(** ** Nodes whose [path()] call may fail

    [node.name()] is called under a guard of its own (lines 376-379), and the
    parameters are read under guards; [node.path()] is called bare: at line
    449 inside the [try], as the fallback of [get_node_name] (line 379,
    reached from line 619) and at lines 631-632, both inside the except
    clause.  A [HostNode] is a node together with the behaviour of that
    call. *)
Record HostNode := {
  node_data : Node;
  path_raises : bool
}.

Section HostHandler.
Variable CHAT_ID : ChatId.
Variable host : Host.

(** [node.path()]. *)
Definition node_path_call (h : HostNode) : M string :=
  if path_raises h then raise OperationFailed else mret (path (node_data h)).

(** [get_node_name(node)] (lines 375-379). *)
Definition get_node_name_call (h : HostNode) : M string :=
  match name (node_data h) with
  | Some n => mret n
  | None => node_path_call h
  end.

(** Lines 616-632. *)
Definition on_render_event_host_except (h : HostNode) (e : Exn) : M unit :=
  node_name ← get_node_name_call h;
  send_telegram_message CHAT_ID host (ErrorDetails node_name e);;
  node_path ← node_path_call h;
  w ← get_world;
  match CURRENT_RENDERS w !! node_path with
  | Some _ => node_path ← node_path_call h;
              modify (set_CURRENT_RENDERS (delete node_path))
  | None => mret tt
  end.

(** Lines 444-632: once line 449 has returned the path, the body is that of
    [on_render_event_try]. *)
Definition on_render_event_host (h : HostNode) (event_type : ropRenderEventType)
    (frame_time : Qc) : M unit :=
  w ← get_world;
  if NOTIFICATIONS_ENABLED w
  then try_except (node_path_call h;;
                   on_render_event_try CHAT_ID host (node_data h) event_type frame_time)
                  (on_render_event_host_except h)
  else mret tt.

End HostHandler.

(** An edit of message [message_id]. *)
Definition edits_message (message_id : Z) (e : Effect) : bool :=
  match e with
  | Post (editMessageText _ mid _) => bool_decide (mid = message_id)
  | _ => false
  end.

(** The first clock readings of the events of a run that edited message
    [message_id]: for a PostFrame event the reading [should_update_progress]
    takes, for a PostRender event the reading that ends the render. *)
Fixpoint edit_times (CHAT_ID : ChatId) (host : Host) (message_id : Z)
    (evs : list Event) (w : World) : list Qc :=
  match evs with
  | [] => []
  | e :: rest =>
      let w' := handle CHAT_ID host w e in
      (if existsb (edits_message message_id) (new_effects w w')
       then [clock host (ticks w)] else [])
      ++ edit_times CHAT_ID host message_id rest w'
  end.

(** [demo_host] with another clock. *)
Definition host_with_clock (c : nat → Qc) : Host :=
  {| clock := c;
     http := http demo_host;
     glob := glob demo_host;
     convert := convert demo_host;
     frame_pattern := frame_pattern demo_host |}.


(** A host whose clock readings are 0, 3 and then 6 for ever. *)
Definition rushing_host : Host :=
  host_with_clock (λ k, Qc_of_Z (3 * Z.of_nat (k `min` 2))).

(** A node that no longer exists: every method raises. *)
Definition deleted_node : HostNode :=
  {| node_data :=
       {| path := "/out/mantra1"; name := None; type_name := None;
          trange := EvalRaises; f1 := EvalRaises; f2 := EvalRaises;
          vm_picture := EvalRaises; references := [] |};
     path_raises := true |}.

(** The node of [mantra_1_2] after its [path()] started to fail. *)
Definition mantra_1_2_unreachable : HostNode :=
  {| node_data := mantra_1_2; path_raises := true |}.

(** The node of [mantra_2_1], reachable. *)
Definition mantra_2_1_reachable : HostNode :=
  {| node_data := mantra_2_1; path_raises := false |}.

(** * Properties *)

(** ** Session statistics *)

Lemma Qc_sum_snoc l t : Qc_sum (l ++ [t]) = (Qc_sum l + t)%Qc.
Proof.
  induction l as [|x l IH]; simpl.
  - by rewrite Qcplus_0_l, Qcplus_0_r.
  - by rewrite IH, Qcplus_assoc.
Qed.

Lemma Z_sum_snoc l n : Z_sum (l ++ [n]) = Z_sum l + n.
Proof. induction l as [|x l IH]; simpl; lia. Qed.

(** Appending to a ten-entry window and popping the front is the window of
    the longer list. *)
Lemma window_snoc (l : list Qc) (t : Qc) :
  let appended := drop (length l - 10) l ++ [t] in
  (if decide (10 < length appended)%nat then drop 1 appended else appended)
  = drop (length (l ++ [t]) - 10) (l ++ [t]).
Proof.
  simpl. rewrite !length_app, length_drop. simpl.
  destruct (decide (length l < 10)%nat) as [Hlt|Hge].
  - replace (length l - 10)%nat with 0%nat by lia.
    replace (length l + 1 - 10)%nat with 0%nat by lia.
    rewrite decide_False by lia. done.
  - rewrite decide_True by lia.
    rewrite drop_app_le by (rewrite length_drop; lia).
    rewrite drop_drop.
    rewrite (drop_app_le l) by lia.
    f_equal. f_equal. lia.
Qed.

Lemma update_render_stats_lookup p t n w q :
  SESSION_RENDERS (update_render_stats p t n w).1 !! q =
    if decide (q = p)
    then Some (record_render t n (default empty_stats (SESSION_RENDERS w !! p)))
    else SESSION_RENDERS w !! q.
Proof.
  unfold update_render_stats, modify, set_SESSION_RENDERS; simpl.
  destruct (decide (q = p)) as [->|Hne].
  - rewrite lookup_alter_eq.
    destruct (SESSION_RENDERS w !! p) as [s|] eqn:E; simpl.
    + by rewrite E.
    + by rewrite lookup_insert_eq.
  - rewrite lookup_alter_ne by done.
    destruct (SESSION_RENDERS w !! p); [done|].
    by rewrite lookup_insert_ne.
Qed.

Lemma record_calls_lookup calls p :
  SESSION_RENDERS (record_calls calls initial_world) !! p
  = stats_after (filter (λ c, c.1.1 = p) calls).
Proof.
  induction calls as [|c calls IH] using rev_ind; [done|].
  unfold record_calls in *. rewrite foldl_app, filter_app. cbn [foldl].
  rewrite update_render_stats_lookup.
  destruct (decide (p = c.1.1)) as [->|Hne].
  - rewrite filter_cons_True, filter_nil by done.
    rewrite IH. set (mine := filter _ calls).
    unfold stats_after at 2.
    rewrite decide_False by (by intros [_ ?]%app_eq_nil).
    f_equal. unfold stats_after, record_render.
    destruct (decide (mine = [])) as [Hm|Hm].
    + rewrite Hm. cbn -[Qcplus]. f_equal; [lia|].
      by rewrite Qcplus_0_l, Qcplus_0_r.
    + cbv [default from_option id times total_renders frames_rendered total_time].
      rewrite !fmap_app. cbn [fmap list_fmap].
      rewrite Qc_sum_snoc, Z_sum_snoc.
      pose proof (window_snoc (mine.*1.*2) c.1.2) as Hw. cbn zeta in Hw.
      rewrite !length_fmap in Hw. rewrite Hw.
      rewrite !length_app, !length_fmap. cbn [length].
      f_equal. lia.
  - rewrite filter_cons_False, filter_nil, app_nil_r by done. apply IH.
Qed.

(** ** The monad and input/output steps *)

Lemma bind_run {A B} (c : M A) (f : A → M B) w :
  (c ≫= f) w = match c w with
               | (w', Return a) => f a w'
               | (w', Raise e) => (w', Raise e)
               end.
Proof. reflexivity. Qed.

Lemma new_effects_same w w' : outbox w' = outbox w → new_effects w w' = [].
Proof. intros E. unfold new_effects. rewrite E. apply drop_all. Qed.

Lemma new_effects_app w new w' : outbox w' = outbox w ++ new → new_effects w w' = new.
Proof. intros E. unfold new_effects. rewrite E. by rewrite drop_app_length. Qed.

Lemma outbox_new_effects w w' :
  outbox w `prefix_of` outbox w' → outbox w' = outbox w ++ new_effects w w'.
Proof. intros [new E]. by rewrite (new_effects_app _ _ _ E). Qed.

Lemma new_effects_trans w w1 w2 :
  outbox w `prefix_of` outbox w1 → outbox w1 `prefix_of` outbox w2 →
  new_effects w w2 = new_effects w w1 ++ new_effects w1 w2.
Proof.
  intros [n1 E1] [n2 E2].
  rewrite (new_effects_app _ _ _ E1), (new_effects_app _ _ _ E2).
  apply new_effects_app. by rewrite E2, E1, (assoc_L (++)).
Qed.

Lemma io_step_refl P w : io_step P w w.
Proof. split; try done. by rewrite new_effects_same. Qed.

Lemma io_step_trans P w w1 w2 : io_step P w w1 → io_step P w1 w2 → io_step P w w2.
Proof.
  intros [] []. split; try congruence.
  - by etrans.
  - rewrite (new_effects_trans w w1 w2) by done. by apply Forall_app.
Qed.

Lemma io_step_mono (P Q : Effect → Prop) w w' :
  (∀ e, P e → Q e) → io_step P w w' → io_step Q w w'.
Proof. intros HPQ []. split; try done. by eapply Forall_impl. Qed.

Lemma io_mono {A} (P Q : Effect → Prop) (c : M A) :
  (∀ e, P e → Q e) → io P c → io Q c.
Proof. intros HPQ Hc w. eapply io_step_mono; eauto. Qed.

Lemma io_mret {A} P (a : A) : io P (mret a).
Proof. intros w. apply io_step_refl. Qed.

Lemma io_raise {A} P e : io P (raise (A:=A) e).
Proof. intros w. apply io_step_refl. Qed.

Lemma io_get_world P : io P get_world.
Proof. intros w. apply io_step_refl. Qed.

Lemma io_bind {A B} P (c : M A) (f : A → M B) :
  io P c → (∀ a, io P (f a)) → io P (c ≫= f).
Proof.
  intros Hc Hf w. rewrite bind_run. specialize (Hc w).
  destruct (c w) as [w1 [a|e]]; simpl in *; [|done].
  eapply io_step_trans; [done|]. apply Hf.
Qed.

Lemma io_try_except {A} P (body : M A) handler :
  io P body → (∀ e, io P (handler e)) → io P (try_except body handler).
Proof.
  intros Hb Hh w. unfold try_except. specialize (Hb w).
  destruct (body w) as [w1 [a|e]]; simpl in *; [done|].
  eapply io_step_trans; [done|]. apply Hh.
Qed.

Lemma io_emit (P : Effect → Prop) e : P e → io P (emit e).
Proof.
  intros He w. split; try done; simpl.
  - by apply prefix_app_r.
  - erewrite new_effects_app by done. by apply Forall_singleton.
Qed.

Lemma io_log_message (P : Effect → Prop) line : P (Log line) → io P (log_message line).
Proof. apply io_emit. Qed.

Lemma never_raises_mret {A} (a : A) : never_raises (mret a).
Proof. intros w. by exists a. Qed.

Lemma never_raises_bind {A B} (c : M A) (f : A → M B) :
  never_raises c → (∀ a, never_raises (f a)) → never_raises (c ≫= f).
Proof.
  intros Hc Hf w. rewrite bind_run. destruct (Hc w) as [a Ha].
  destruct (c w) as [w1 r]; simpl in *; subst. apply Hf.
Qed.

Lemma never_raises_try_except {A} (body : M A) handler :
  (∀ e, never_raises (handler e)) → never_raises (try_except body handler).
Proof.
  intros Hh w. unfold try_except.
  destruct (body w) as [w1 [a|e]]; [by exists a|apply Hh].
Qed.

Lemma never_raises_emit e : never_raises (emit e).
Proof. intros w. by exists tt. Qed.

Section HandlerFacts.
Variable CHAT_ID : ChatId.
Variable host : Host.

Lemma io_datetime_now P : io P (datetime_now host).
Proof. intros w. split; try done. by rewrite new_effects_same. Qed.

Lemma io_requests_post (P : Effect → Prop) r : P (Post r) → io P (requests_post host r).
Proof.
  intros Hr w. unfold requests_post.
  destruct (http host (posts w)); (split; try done; simpl;
    [by apply prefix_app_r | erewrite new_effects_app by done; by apply Forall_singleton]).
Qed.

(** *** Sending a chat message *)

Lemma elem_of_new_effects w w' new e :
  outbox w' = outbox w ++ new → e ∈ new → e ∈ new_effects w w'.
Proof. intros E He. by rewrite (new_effects_app _ _ _ E). Qed.

Lemma elem_of_new_effects_l w w1 w2 e :
  outbox w `prefix_of` outbox w1 → outbox w1 `prefix_of` outbox w2 →
  e ∈ new_effects w w1 → e ∈ new_effects w w2.
Proof. intros H1 H2 He. rewrite (new_effects_trans w w1 w2) by done. set_solver. Qed.

Lemma elem_of_new_effects_r w w1 w2 e :
  outbox w `prefix_of` outbox w1 → outbox w1 `prefix_of` outbox w2 →
  e ∈ new_effects w1 w2 → e ∈ new_effects w w2.
Proof. intros H1 H2 He. rewrite (new_effects_trans w w1 w2) by done. set_solver. Qed.

Lemma io_send_to_chat chat m : io (says (eq m)) (send_to_chat host chat m).
Proof.
  unfold send_to_chat. apply io_try_except.
  - apply io_bind; [by apply io_requests_post|].
    intros [[] [mid|]]; first [apply io_mret | apply io_raise].
  - intros e. apply io_bind; [by apply io_log_message|]. intros _. apply io_mret.
Qed.

Lemma never_raises_send_to_chat chat m : never_raises (send_to_chat host chat m).
Proof.
  unfold send_to_chat. apply never_raises_try_except. intros e.
  apply never_raises_bind; [apply never_raises_emit|]. intros _. apply never_raises_mret.
Qed.

Lemma send_to_chat_posts chat m w :
  Post (sendMessage chat m) ∈ new_effects w (send_to_chat host chat m w).1.
Proof.
  unfold send_to_chat, try_except. rewrite bind_run. unfold requests_post.
  destruct (http host (posts w)) as [[] [mid|]|]; simpl;
    (eapply elem_of_new_effects; [simpl; try rewrite <-(assoc_L (++)); reflexivity|]);
    set_solver.
Qed.

Lemma io_send_to_chats ids m : io (says (eq m)) (send_to_chats host ids m).
Proof.
  induction ids as [|chat ids IH]; simpl; [apply io_mret|].
  apply io_bind; [apply io_send_to_chat|]. intros [mid|]; [apply io_mret|apply IH].
Qed.

Lemma never_raises_send_to_chats ids m : never_raises (send_to_chats host ids m).
Proof.
  induction ids as [|chat ids IH]; simpl; [apply never_raises_mret|].
  apply never_raises_bind; [apply never_raises_send_to_chat|].
  intros [mid|]; [apply never_raises_mret|apply IH].
Qed.

Lemma io_send_telegram_message m : io (says (eq m)) (send_telegram_message CHAT_ID host m).
Proof.
  unfold send_telegram_message. destruct CHAT_ID; [apply io_send_to_chats|apply io_send_to_chat].
Qed.

Lemma never_raises_send_telegram_message m :
  never_raises (send_telegram_message CHAT_ID host m).
Proof.
  unfold send_telegram_message.
  destruct CHAT_ID; [apply never_raises_send_to_chats|apply never_raises_send_to_chat].
Qed.

(** With a chat configured, the message is posted to some chat. *)
Lemma send_telegram_message_posts m w :
  configured CHAT_ID →
  ∃ chat, Post (sendMessage chat m) ∈ new_effects w (send_telegram_message CHAT_ID host m w).1.
Proof.
  unfold send_telegram_message, configured.
  destruct CHAT_ID as [[|chat ids]|chat]; [done| |]; intros _; exists chat.
  - simpl. rewrite bind_run.
    pose proof (send_to_chat_posts chat m w) as Hin.
    pose proof (io_send_to_chat chat m w) as Hio.
    destruct (send_to_chat host chat m w) as [w1 [[mid|]|e]]; simpl in *; try done.
    pose proof (io_send_to_chats ids m w1) as Hio'.
    eapply elem_of_new_effects_l; [apply Hio|apply Hio'|done].
  - apply send_to_chat_posts.
Qed.

Lemma io_edit_or_send mid m : io (says (eq m)) (edit_or_send CHAT_ID host mid m).
Proof.
  unfold edit_or_send. apply io_try_except.
  - apply io_bind; [by apply io_requests_post|]. intros _. apply io_mret.
  - intros e. apply io_bind; [apply io_send_telegram_message|]. intros _. apply io_mret.
Qed.

Lemma never_raises_edit_or_send mid m : never_raises (edit_or_send CHAT_ID host mid m).
Proof.
  unfold edit_or_send. apply never_raises_try_except. intros e.
  apply never_raises_bind; [apply never_raises_send_telegram_message|].
  intros _. apply never_raises_mret.
Qed.

Lemma edit_or_send_posts mid m w :
  Post (editMessageText CHAT_ID mid m) ∈ new_effects w (edit_or_send CHAT_ID host mid m w).1.
Proof.
  unfold edit_or_send, try_except. rewrite bind_run.
  pose proof (io_requests_post (says (eq m)) (editMessageText CHAT_ID mid m) eq_refl w) as Hio.
  assert (Post (editMessageText CHAT_ID mid m)
          ∈ new_effects w (requests_post host (editMessageText CHAT_ID mid m) w).1) as Hin.
  { unfold requests_post. destruct (http host (posts w)); simpl;
      (eapply elem_of_new_effects; [done|set_solver]). }
  destruct (requests_post host _ w) as [w1 [a|e]]; simpl in *; [done|].
  rewrite bind_run.
  pose proof (io_send_telegram_message m w1) as Hio'.
  destruct (send_telegram_message CHAT_ID host m w1) as [w2 [a|e']]; simpl in *;
    (eapply elem_of_new_effects_l; [apply Hio|apply Hio'|done]).
Qed.

(** *** The preview *)

Lemma io_collect_images frames : io preview_effect (collect_images host frames).
Proof.
  induction frames as [|f frames IH]; simpl; [apply io_mret|].
  destruct (convert host f).
  - apply io_bind; [done|]. intros. apply io_mret.
  - apply io_bind; [by apply io_log_message|]. done.
  - apply io_bind; [by apply io_log_message|]. done.
Qed.

Lemma io_send_telegram_animation node pattern :
  io preview_effect (send_telegram_animation CHAT_ID host node pattern).
Proof.
  unfold send_telegram_animation.
  destruct (sorted (glob host pattern)) as [|f1 [|f2 frames]].
  - apply io_bind; [by apply io_log_message|]. intros. apply io_mret.
  - apply io_try_except.
    + apply io_bind; [by apply io_log_message|]. intros _.
      destruct (convert host f1).
      * apply io_bind; [by apply io_log_message|]. intros _.
        apply io_bind; [by apply io_requests_post|]. intros [[] ?]; [apply io_mret|].
        apply io_bind; [by apply io_log_message|]. intros. apply io_mret.
      * repeat (apply io_bind; [by apply io_log_message|]; intros _). apply io_mret.
      * apply io_raise.
    + intros e. apply io_bind; [by apply io_log_message|]. intros. apply io_raise.
  - apply io_try_except.
    + apply io_bind.
      { case_decide; [|apply io_mret].
        destruct (sample_frames _); [apply io_mret|apply io_raise]. }
      intros sampled. apply io_bind; [by apply io_log_message|]. intros _.
      apply io_bind; [apply io_collect_images|]. intros [|img images].
      * apply io_bind; [by apply io_log_message|]. intros. apply io_mret.
      * repeat (apply io_bind; [by apply io_log_message|]; intros _).
        apply io_bind; [by apply io_requests_post|]. intros [[] ?].
        -- apply io_bind; [apply io_mret|]. intros. apply io_mret.
        -- apply io_bind; [by apply io_log_message|]. intros. apply io_mret.
    + intros e. apply io_bind; [by apply io_log_message|]. intros. apply io_mret.
Qed.

Lemma io_send_preview node : io preview_effect (send_preview CHAT_ID host node).
Proof.
  unfold send_preview. apply io_try_except.
  - apply io_bind.
    { unfold output_path_of. repeat case_match; first [apply io_mret|apply io_raise]. }
    intros output_path. apply io_bind; [by apply io_log_message|]. intros _.
    apply io_bind; [apply io_send_telegram_animation|].
    intros []; [by apply io_log_message|apply io_mret].
  - intros e. by apply io_log_message.
Qed.

Lemma never_raises_send_preview node : never_raises (send_preview CHAT_ID host node).
Proof.
  unfold send_preview. apply never_raises_try_except. intros e. apply never_raises_emit.
Qed.

Lemma Qc_of_Z_eq_0 z : Qc_of_Z z = 0%Qc → z = 0.
Proof. intros E. by injection E. Qed.

Lemma Qc_of_Z_0 : Qc_of_Z 0 = 0%Qc.
Proof. by apply Qc_is_canon. Qed.

Lemma run_mret {A} (a : A) w : (mret a : M A) w = (w, Return a).
Proof. reflexivity. Qed.

Lemma run_get_world w : get_world w = (w, Return w).
Proof. reflexivity. Qed.

Lemma run_modify f w : modify f w = (f w, Return tt).
Proof. reflexivity. Qed.

Lemma run_datetime_now w : datetime_now host w = (tick w, Return (clock host (ticks w))).
Proof. reflexivity. Qed.

Lemma run_py_div x y w : y ≠ 0%Qc → py_div x y w = (w, Return (x / y)%Qc).
Proof. intros Hy. unfold py_div. by rewrite decide_False. Qed.

Lemma run_py_div_0 x w : py_div x 0%Qc w = (w, Raise ZeroDivisionError).
Proof. unfold py_div. by rewrite decide_True. Qed.

Lemma run_should_update_progress st w :
  should_update_progress host st w =
    (tick w,
     Return (if decide (update_interval st ≤ clock host (ticks w) - last_update_time st)%Qc
             then (true, set_last_update_time (clock host (ticks w)) st)
             else (false, st))).
Proof.
  unfold should_update_progress. rewrite bind_run, run_datetime_now.
  by case_decide.
Qed.

Lemma io_modify_session P f : io P (modify (set_SESSION_RENDERS f)).
Proof. intros w. split; try done. by rewrite new_effects_same. Qed.

Lemma io_py_div P x y : io P (py_div x y).
Proof. unfold py_div. case_decide; [apply io_raise|apply io_mret]. Qed.

Lemma io_tick P w : io_step P w (tick w).
Proof. split; try done. by rewrite new_effects_same. Qed.

(** A post guarded by a handler that only reports is always recorded. *)
Lemma try_post_posts (P : Effect → Prop) r (handler : Exn → M unit) w :
  P (Post r) → (∀ e, io P (handler e)) →
  Post r ∈ new_effects w (try_except (requests_post host r;; mret tt) handler w).1.
Proof.
  intros Hr Hh. unfold try_except. rewrite bind_run.
  pose proof (io_requests_post P r Hr w) as Hio.
  assert (Post r ∈ new_effects w (requests_post host r w).1) as Hin.
  { unfold requests_post. destruct (http host (posts w)); simpl;
      (eapply elem_of_new_effects; [done|set_solver]). }
  destruct (requests_post host r w) as [w1 [a|e]]; simpl in *; [done|].
  pose proof (Hh e w1) as Hio'.
  eapply elem_of_new_effects_l; [apply Hio|apply Hio'|done].
Qed.

(** *** PostFrame *)

Lemma report_progress_raises node st w :
  total_frames st = 0 →
  ∃ w', report_progress CHAT_ID host node st w = (w', Raise ZeroDivisionError)
    ∧ io_step (λ _, False) w w'.
Proof.
  intros HT. unfold report_progress. rewrite bind_run, run_datetime_now.
  cbv beta iota. rewrite bind_run.
  assert (∃ avg, (if decide (0 < size (completed_frames st))%nat
                  then py_div (clock host (ticks w) - start_time st)%Qc
                         (Qc_of_Z (Z.of_nat (size (completed_frames st))))
                  else (mret 0%Qc : M Qc)) (tick w) = (tick w, Return avg)) as [avg ->].
  { case_decide; [|by eexists]. eexists. apply run_py_div.
    intros ?%Qc_of_Z_eq_0. lia. }
  cbv beta iota. rewrite bind_run, HT.
  rewrite Qc_of_Z_0, run_py_div_0.
  eexists; split; [done|]. apply io_tick.
Qed.

Lemma report_progress_run node st w :
  total_frames st ≠ 0 → (0 < size (completed_frames st))%nat →
  let duration := (clock host (ticks w) - start_time st)%Qc in
  let frames_done := size (completed_frames st) in
  let average := (duration / Qc_of_Z (Z.of_nat frames_done))%Qc in
  let remaining := py_max0 (average * Qc_of_Z (total_frames st) - duration) in
  let fraction := (Qc_of_Z (Z.of_nat frames_done) / Qc_of_Z (total_frames st))%Qc in
  let message :=
    RenderInProgress (get_render_engine node) (get_node_name node)
      frames_done (total_frames st) (fraction * Qc_of_Z 100)%Qc (get_progress_bar fraction)
      (format_time duration) (format_time remaining)
      (clock host (S (ticks w)) + remaining)%Qc (format_time average) in
  ∃ w', report_progress CHAT_ID host node st w = (w', Return tt)
    ∧ io_step (says (eq message)) w w'
    ∧ match truthy (message_id st) with
      | Some mid => Post (editMessageText CHAT_ID mid message) ∈ new_effects w w'
      | None => outbox w' = outbox w
      end.
Proof.
  intros HT Hn. cbv zeta.
  assert (Qc_of_Z (total_frames st) ≠ 0%Qc) as HT' by (by intros ?%Qc_of_Z_eq_0).
  assert (Qc_of_Z (Z.of_nat (size (completed_frames st))) ≠ 0%Qc) as Hn'.
  { intros ?%Qc_of_Z_eq_0. lia. }
  unfold report_progress. rewrite bind_run, run_datetime_now.
  cbv beta iota. rewrite decide_True by done.
  rewrite bind_run, run_py_div by done. cbv beta iota.
  rewrite bind_run, run_py_div by done. cbv beta iota.
  rewrite bind_run, run_datetime_now. cbv beta iota.
  rewrite bind_run, run_py_div by done. cbv beta iota.
  change (ticks (tick w)) with (S (ticks w)).
  set (message := RenderInProgress _ _ _ _ _ _ _ _ _ _).
  destruct (truthy (message_id st)) as [mid|].
  - set (c := try_except _ _).
    assert (io (says (eq message)) c) as Hio.
    { apply io_try_except.
      - apply io_bind; [by apply io_requests_post|]. intros. apply io_mret.
      - intros e. by apply io_log_message. }
    assert (never_raises c) as Hnr.
    { apply never_raises_try_except. intros. apply never_raises_emit. }
    pose proof (try_post_posts (says (eq message)) (editMessageText CHAT_ID mid message)
                  (λ _, log_message "Error updating frame progress") (tick (tick w))
                  eq_refl) as Hin.
    fold c in Hin. specialize (Hin (λ _, io_log_message _ _ I)).
    specialize (Hio (tick (tick w))). destruct (Hnr (tick (tick w))) as [[] Hr].
    destruct (c (tick (tick w))) as [w' r]; simpl in *; subst r.
    exists w'. split; [done|]. split.
    + eapply io_step_trans; [|done].
      eapply io_step_trans; apply io_tick.
    + eapply (elem_of_new_effects_r w (tick (tick w)) w'); [done|apply Hio|done].
  - exists (tick (tick w)). split; [done|]. split; [|done].
    eapply io_step_trans; apply io_tick.
Qed.

Lemma on_PostFrame_untracked node ft w :
  CURRENT_RENDERS w !! path node = None →
  on_PostFrame CHAT_ID host node ft w = (w, Return tt).
Proof.
  intros E. unfold on_PostFrame. rewrite bind_run, run_get_world.
  cbv beta iota. by rewrite E.
Qed.

Lemma on_PostFrame_tracked node ft w st :
  CURRENT_RENDERS w !! path node = Some st →
  let st1 := set_completed_frames ({[ft]} ∪ completed_frames st) st in
  let now := clock host (ticks w) in
  on_PostFrame CHAT_ID host node ft w =
    if decide (update_interval st ≤ now - last_update_time st)%Qc
    then report_progress CHAT_ID host node (set_last_update_time now st1)
           (set_CURRENT_RENDERS (<[path node := set_last_update_time now st1]>) (tick w))
    else (set_CURRENT_RENDERS (<[path node := st1]>) (tick w), Return tt).
Proof.
  intros E. cbv zeta. unfold on_PostFrame. rewrite bind_run, run_get_world.
  cbv beta iota. rewrite E.
  rewrite bind_run, run_modify. cbv beta iota.
  rewrite bind_run, run_should_update_progress. cbv beta iota.
  change (update_interval (set_completed_frames _ st)) with (update_interval st).
  change (last_update_time (set_completed_frames _ st)) with (last_update_time st).
  change (ticks (set_CURRENT_RENDERS _ w)) with (ticks w).
  case_decide.
  - rewrite bind_run, run_modify. cbv beta iota.
    f_equal. unfold set_CURRENT_RENDERS, tick; simpl. f_equal. apply insert_insert_eq.
  - rewrite bind_run, run_modify. cbv beta iota. rewrite run_mret.
    f_equal. unfold set_CURRENT_RENDERS, tick; simpl. f_equal. apply insert_insert_eq.
Qed.

(** *** PreRender *)

Lemma on_PreRender_tracked node w st :
  CURRENT_RENDERS w !! path node = Some st →
  on_PreRender CHAT_ID host node w = (w, Return tt).
Proof.
  intros E. unfold on_PreRender. rewrite bind_run, run_get_world.
  cbv beta iota. by rewrite E.
Qed.

Lemma run_initialize_render_state node w :
  ∃ st, initialize_render_state host node w = (tick (tick w), Return st)
    ∧ start_time st = clock host (ticks w)
    ∧ message_id st = None
    ∧ completed_frames st = ∅
    ∧ total_frames st
      = py_int ((get_sequence_range node).2 - (get_sequence_range node).1 + Qc_of_Z 1)%Qc
    ∧ start_frame st = py_int (get_sequence_range node).1
    ∧ end_frame st = py_int (get_sequence_range node).2
    ∧ last_update_time st = clock host (S (ticks w))
    ∧ update_interval st = Qc_of_Z 2.
Proof.
  unfold initialize_render_state. destruct (get_sequence_range node) as [s e].
  eexists. split; [reflexivity|]. by repeat split.
Qed.

Lemma on_PreRender_fresh node w :
  CURRENT_RENDERS w !! path node = None →
  ∃ w' st m,
    on_PreRender CHAT_ID host node w = (w', Return tt)
    ∧ initialize_render_state host node w = (tick (tick w), Return st)
    ∧ CURRENT_RENDERS w' = <[path node := set_message_id m st]> (CURRENT_RENDERS w)
    ∧ NOTIFICATIONS_ENABLED w' = NOTIFICATIONS_ENABLED w
    ∧ outbox w `prefix_of` outbox w'
    ∧ Forall (says (λ m, verdict m = Started)) (new_effects w w').
Proof.
  intros E. unfold on_PreRender. rewrite bind_run, run_get_world.
  cbv beta iota. rewrite E.
  destruct (run_initialize_render_state node w) as (st & Hinit & _).
  rewrite bind_run, Hinit. cbv beta iota.
  rewrite bind_run, run_modify. cbv beta iota.
  set (w2 := set_CURRENT_RENDERS _ _).
  set (message := RenderStarted _ _ _ _ _).
  rewrite bind_run.
  pose proof (io_send_telegram_message message w2) as Hio.
  destruct (never_raises_send_telegram_message message w2) as [msg_id Hr].
  destruct (send_telegram_message CHAT_ID host message w2) as [w3 r]; simpl in *; subst r.
  assert (io_step (says (λ m, verdict m = Started)) w2 w3) as Hio'.
  { eapply io_step_mono; [|done]. intros [[]|]; simpl; try done; by intros <-. }
  assert (outbox w `prefix_of` outbox w3 ∧
          new_effects w w3 = new_effects w2 w3) as [Hpre Hnew].
  { split; [apply Hio|]. unfold new_effects. done. }
  destruct (truthy msg_id) as [mid|] eqn:Ht.
  - rewrite run_modify. eexists _, st, msg_id. split; [done|]. split; [done|].
    simpl. destruct Hio' as [? Hc ? ?]. rewrite Hc. subst w2. simpl.
    split; [by rewrite alter_insert_eq|]. split; [done|]. split; [done|].
    by rewrite <-Hnew in *.
  - rewrite run_mret. eexists w3, st, None. split; [done|]. split; [done|].
    destruct Hio' as [? Hc ? ?]. rewrite Hc. subst w2. simpl.
    assert (set_message_id None st = st) as ->.
    { destruct (run_initialize_render_state node w) as (st' & Hinit' & _ & Hm & _).
      rewrite Hinit in Hinit'. injection Hinit' as <-.
      destruct st; simpl in *; by subst. }
    split; [done|]. split; [done|]. split; [done|]. by rewrite Hnew.
Qed.

(** *** PostRender *)

Lemma times_record_render t n s : times (record_render t n s) ≠ [].
Proof.
  unfold record_render; simpl. case_decide as Hlen; [|by destruct (times s)].
  rewrite length_app in Hlen; simpl in Hlen.
  intros Hnil. apply (f_equal length) in Hnil.
  rewrite length_drop, length_app in Hnil; simpl in Hnil. lia.
Qed.

Lemma get_render_stats_after_update p t n w :
  ∃ view, get_render_stats p (update_render_stats p t n w).1
          = ((update_render_stats p t n w).1, Return (Some view)).
Proof.
  unfold get_render_stats. rewrite bind_run, run_get_world. cbv beta iota.
  rewrite update_render_stats_lookup, decide_True by done.
  set (s := record_render _ _ _).
  pose proof (times_record_render t n (default empty_stats (SESSION_RENDERS w !! p))) as Hne.
  fold s in Hne. destruct (times s) as [|x l] eqn:Et; [done|].
  rewrite bind_run. case_decide as Hpos.
  - rewrite run_py_div by (intros ?%Qc_of_Z_eq_0; lia). by eexists.
  - rewrite run_mret. by eexists.
Qed.

Lemma io_update_render_stats P p t n : io P (update_render_stats p t n).
Proof. apply io_modify_session. Qed.

Lemma elem_of_texts_send chat m l : Post (sendMessage chat m) ∈ l → m ∈ texts l.
Proof. intros Hin. unfold texts. apply list_elem_of_omap. by eexists (Post _). Qed.

Lemma elem_of_texts_edit chat mid m l : Post (editMessageText chat mid m) ∈ l → m ∈ texts l.
Proof. intros Hin. unfold texts. apply list_elem_of_omap. by eexists (Post _). Qed.

Lemma edits_reports chat mid v l : edits chat mid v l → reports v l.
Proof.
  intros (m & <- & Hin). unfold reports, verdicts.
  apply list_elem_of_fmap. eexists. split; [done|]. by eapply elem_of_texts_edit.
Qed.

Lemma sends_reports v l : sends v l → reports v l.
Proof.
  intros (chat & m & <- & Hin). unfold reports, verdicts.
  apply list_elem_of_fmap. eexists. split; [done|]. by eapply elem_of_texts_send.
Qed.

Lemma Forall_texts (P : Message → Prop) l : Forall (says P) l → Forall P (texts l).
Proof.
  intros Hl. apply Forall_forall. intros m Hm.
  apply list_elem_of_omap in Hm as (e & He & Hm).
  rewrite Forall_forall in Hl. specialize (Hl e He).
  destruct e as [[]|]; simplify_eq; done.
Qed.

Lemma elem_of_new_effects_mid w w1 w2 w3 e :
  outbox w `prefix_of` outbox w1 → outbox w1 `prefix_of` outbox w2 →
  outbox w2 `prefix_of` outbox w3 →
  e ∈ new_effects w1 w2 → e ∈ new_effects w w3.
Proof.
  intros H1 H2 H3 He.
  eapply elem_of_new_effects_l; [by etrans|done|].
  by eapply elem_of_new_effects_r.
Qed.

(** Running a computation that only reports and never raises. *)
Lemma run_io {A} (P : Effect → Prop) (c : M A) w :
  io P c → never_raises c → ∃ w' a, c w = (w', Return a) ∧ io_step P w w'.
Proof.
  intros Hio Hnr. specialize (Hio w). destruct (Hnr w) as [a Ha].
  destruct (c w) as [w' r]; simpl in *; subst. by exists w', a.
Qed.

Lemma report_outcome_spec node st d w :
  let n := Z.of_nat (size (completed_frames st)) in
  let T := total_frames st in
  ∃ w', report_outcome CHAT_ID host node st d w = (w', Return tt)
    ∧ io_step (outcome_effect n T) w w'
    ∧ (0 < n < T → ∀ mid, truthy (message_id st) = Some mid →
         edits CHAT_ID mid Interrupted (new_effects w w'))
    ∧ (n = T →
         (∀ mid, truthy (message_id st) = Some mid →
            edits CHAT_ID mid Complete (new_effects w w'))
         ∧ (configured CHAT_ID →
              reports Complete (new_effects w w') ∧ sends Finished (new_effects w w')))
    ∧ (¬ 0 < n < T → n ≠ T →
         (∀ mid, truthy (message_id st) = Some mid →
            edits CHAT_ID mid Failed (new_effects w w'))
         ∧ (configured CHAT_ID → reports Failed (new_effects w w'))).
Proof.
  cbv zeta. unfold report_outcome.
  destruct (decide (0 < Z.of_nat (size (completed_frames st)) < total_frames st))
    as [Hmid|Hmid]; [|destruct (decide (Z.of_nat (size (completed_frames st))
                                         = total_frames st)) as [Heq|Hne]].
  - (* interrupted *)
    rewrite bind_run, run_py_div by (intros ?%Qc_of_Z_eq_0; lia). cbv beta iota.
    set (message := RenderInterrupted _ _ _ _ _ _ _).
    assert (∀ e, says (eq message) e →
                 outcome_effect (Z.of_nat (size (completed_frames st))) (total_frames st) e)
      as Hmono.
    { intros e He. unfold outcome_effect. rewrite decide_True by done.
      destruct e as [[]|]; simpl in *; try done; by subst. }
    destruct (truthy (message_id st)) as [mid|].
    + destruct (run_io _ _ w (io_edit_or_send mid message)
                  (never_raises_edit_or_send mid message)) as (w' & [] & Hrun & Hio).
      pose proof (edit_or_send_posts mid message w) as Hin. rewrite Hrun in Hin.
      exists w'. split; [done|]. split; [by eapply io_step_mono|].
      split; [|split; [lia|done]].
      intros _ mid' [= <-]. by exists message.
    + rewrite run_mret. exists w. split; [done|]. split; [apply io_step_refl|].
      split; [done|]. split; [lia|done].
  - (* complete *)
    assert (∀ e, preview_effect e ∨ says (λ m, verdict m = Complete ∨ verdict m = Finished) e →
                 outcome_effect (Z.of_nat (size (completed_frames st))) (total_frames st) e)
      as Hmono.
    { intros e He. unfold outcome_effect. by rewrite decide_False, decide_True by done. }
    rewrite bind_run.
    pose proof (io_update_render_stats (outcome_effect (Z.of_nat (size (completed_frames st)))
                  (total_frames st)) (path node) d
                  (Z.of_nat (size (completed_frames st))) w) as Hio1.
    destruct (get_render_stats_after_update (path node) d
                (Z.of_nat (size (completed_frames st))) w) as [view Hview].
    unfold update_render_stats at 1. rewrite run_modify. cbv beta iota.
    change (set_SESSION_RENDERS _ w)
      with (update_render_stats (path node) d
              (Z.of_nat (size (completed_frames st))) w).1 in *.
    set (w1 := (update_render_stats _ _ _ w).1) in *.
    rewrite bind_run, Hview. cbv beta iota.
    rewrite bind_run.
    destruct (run_io _ _ w1 (io_send_preview node) (never_raises_send_preview node))
      as (w2 & [] & -> & Hio2).
    cbv beta iota.
    set (message := RenderComplete _ _ _ _ _ _ _ _).
    set (completion_message := RenderFinished _ _ _ _).
    rewrite bind_run.
    assert (∃ w3, match truthy (message_id st) with
                  | Some mid => edit_or_send CHAT_ID host mid message
                  | None => send_telegram_message CHAT_ID host message;; mret tt
                  end w2 = (w3, Return tt)
                  ∧ io_step (says (eq message)) w2 w3
                  ∧ (∀ mid, truthy (message_id st) = Some mid →
                       Post (editMessageText CHAT_ID mid message) ∈ new_effects w2 w3)
                  ∧ (configured CHAT_ID → message ∈ texts (new_effects w2 w3)))
      as (w3 & -> & Hio3 & Hedit & Hconf).
    { destruct (truthy (message_id st)) as [mid|].
      - destruct (run_io _ _ w2 (io_edit_or_send mid message)
                    (never_raises_edit_or_send mid message)) as (w3 & [] & Hrun & Hio).
        pose proof (edit_or_send_posts mid message w2) as Hin. rewrite Hrun in Hin.
        exists w3. split; [done|]. split; [done|]. split.
        + by intros mid' [= <-].
        + intros _. by eapply elem_of_texts_edit.
      - rewrite bind_run.
        destruct (run_io _ _ w2 (io_send_telegram_message message)
                    (never_raises_send_telegram_message message)) as (w3 & r & Hrun & Hio).
        rewrite Hrun. exists w3. split; [done|]. split; [done|]. split; [done|].
        intros Hc. destruct (send_telegram_message_posts message w2 Hc) as [chat Hin].
        rewrite Hrun in Hin. by eapply elem_of_texts_send. }
    cbv beta iota. rewrite bind_run.
    destruct (run_io _ _ w3 (io_send_telegram_message completion_message)
                (never_raises_send_telegram_message completion_message))
      as (w4 & r & Hrun & Hio4).
    rewrite Hrun. cbv beta iota. rewrite run_mret.
    exists w4. split; [done|].
    assert (outbox w `prefix_of` outbox w1) by apply Hio1.
    assert (outbox w1 `prefix_of` outbox w2) by apply Hio2.
    assert (outbox w2 `prefix_of` outbox w3) by apply Hio3.
    assert (outbox w3 `prefix_of` outbox w4) by apply Hio4.
    split.
    { eapply io_step_trans; [exact Hio1|].
      eapply io_step_trans; [eapply io_step_mono; [|exact Hio2]; intros; apply Hmono; by left|].
      eapply io_step_trans.
      - eapply io_step_mono; [|exact Hio3]. intros e He. apply Hmono. right.
        destruct e as [[]|]; simpl in *; try done; subst; by left.
      - eapply io_step_mono; [|exact Hio4]. intros e He. apply Hmono. right.
        destruct e as [[]|]; simpl in *; try done; subst; by right. }
    split; [lia|]. split; [|done].
    intros _. split.
    + intros mid Hm. exists message. split; [done|].
      eapply (elem_of_new_effects_mid w w2 w3 w4); [by etrans|done|done|by apply Hedit].
    + intros Hc. split.
      * unfold reports, verdicts. apply list_elem_of_fmap. exists message. split; [done|].
        specialize (Hconf Hc). unfold texts in *.
        apply list_elem_of_omap in Hconf as (e & He & Hm).
        apply list_elem_of_omap. exists e. split; [|done].
        eapply (elem_of_new_effects_mid w w2 w3 w4); [by etrans|done|done|done].
      * destruct (send_telegram_message_posts completion_message w3 Hc) as [chat Hin].
        rewrite Hrun in Hin. exists chat, completion_message. split; [done|].
        eapply (elem_of_new_effects_r w w3 w4); [|done|done].
        etrans; [done|]. by etrans.
  - (* failed *)
    set (message := RenderFailed _ _ _).
    assert (∀ e, says (eq message) e →
                 outcome_effect (Z.of_nat (size (completed_frames st))) (total_frames st) e)
      as Hmono.
    { intros e He. unfold outcome_effect. rewrite !decide_False by done.
      destruct e as [[]|]; simpl in *; try done; by subst. }
    destruct (truthy (message_id st)) as [mid|].
    + destruct (run_io _ _ w (io_edit_or_send mid message)
                  (never_raises_edit_or_send mid message)) as (w' & [] & Hrun & Hio).
      pose proof (edit_or_send_posts mid message w) as Hin. rewrite Hrun in Hin.
      exists w'. split; [done|]. split; [by eapply io_step_mono|].
      split; [done|]. split; [done|]. intros _ _.
      assert (edits CHAT_ID mid Failed (new_effects w w')) as He by (by exists message).
      split; [by intros mid' [= <-]|]. intros _. by eapply edits_reports.
    + rewrite bind_run.
      destruct (run_io _ _ w (io_send_telegram_message message)
                  (never_raises_send_telegram_message message)) as (w' & r & Hrun & Hio).
      rewrite Hrun. cbv beta iota. rewrite run_mret.
      exists w'. split; [done|]. split; [by eapply io_step_mono|].
      split; [done|]. split; [done|]. intros _ _. split; [done|].
      intros Hc. destruct (send_telegram_message_posts message w Hc) as [chat Hin].
      rewrite Hrun in Hin. apply sends_reports. by exists chat, message.
Qed.

Lemma on_PostRender_untracked node w :
  CURRENT_RENDERS w !! path node = None →
  on_PostRender CHAT_ID host node w = (w, Return tt).
Proof.
  intros E. unfold on_PostRender. rewrite bind_run, run_get_world.
  cbv beta iota. by rewrite E.
Qed.

Lemma on_PostRender_tracked node w st :
  CURRENT_RENDERS w !! path node = Some st →
  ∃ w1, report_outcome CHAT_ID host node st
          (clock host (ticks w) - start_time st)%Qc (tick w) = (w1, Return tt)
    ∧ on_PostRender CHAT_ID host node w
      = (set_CURRENT_RENDERS (delete (path node)) w1, Return tt).
Proof.
  intros E.
  destruct (report_outcome_spec node st (clock host (ticks w) - start_time st)%Qc (tick w))
    as (w1 & Hrun & _).
  exists w1. split; [done|].
  unfold on_PostRender. rewrite bind_run, run_get_world. cbv beta iota. rewrite E.
  rewrite bind_run, run_datetime_now. cbv beta iota.
  rewrite bind_run, Hrun. cbv beta iota. by rewrite run_modify.
Qed.

(** *** The except clause *)

Lemma on_render_event_except_run node e w :
  let report := ErrorDetails (get_node_name node) e in
  ∃ w', on_render_event_except CHAT_ID host node e w = (w', Return tt)
    ∧ CURRENT_RENDERS w' = delete (path node) (CURRENT_RENDERS w)
    ∧ NOTIFICATIONS_ENABLED w' = NOTIFICATIONS_ENABLED w
    ∧ outbox w `prefix_of` outbox w'
    ∧ Forall (says (eq report)) (new_effects w w')
    ∧ (configured CHAT_ID → ∃ chat, Post (sendMessage chat report) ∈ new_effects w w').
Proof.
  cbv zeta. unfold on_render_event_except. rewrite bind_run.
  set (report := ErrorDetails _ _).
  destruct (run_io _ _ w (io_send_telegram_message report)
              (never_raises_send_telegram_message report)) as (w1 & r & Hrun & Hio).
  pose proof (send_telegram_message_posts report w) as Hin.
  rewrite Hrun in *. cbv beta iota. rewrite bind_run, run_get_world. cbv beta iota.
  destruct Hio as [Hen Hcur Hpre Hnew].
  destruct (CURRENT_RENDERS w1 !! path node) as [st|] eqn:E.
  - rewrite run_modify. eexists. split; [done|]. simpl. by rewrite Hcur.
  - rewrite run_mret. exists w1. split; [done|].
    rewrite <-Hcur. by rewrite delete_id.
Qed.

(** *** Dispatch *)

Lemma on_render_event_disabled node ev ft w :
  NOTIFICATIONS_ENABLED w = false →
  on_render_event CHAT_ID host node ev ft w = (w, Return tt).
Proof.
  intros E. unfold on_render_event. rewrite bind_run, run_get_world.
  cbv beta iota. by rewrite E.
Qed.

Lemma on_render_event_enabled node ev ft w :
  NOTIFICATIONS_ENABLED w = true →
  on_render_event CHAT_ID host node ev ft w =
    try_except (on_render_event_try CHAT_ID host node ev ft)
               (on_render_event_except CHAT_ID host node) w.
Proof.
  intros E. unfold on_render_event. rewrite bind_run, run_get_world.
  cbv beta iota. by rewrite E.
Qed.

Lemma on_render_event_PostFrame node ft w st :
  NOTIFICATIONS_ENABLED w = true →
  CURRENT_RENDERS w !! path node = Some st →
  let st1 := set_completed_frames ({[ft]} ∪ completed_frames st) st in
  let now := clock host (ticks w) in
  on_render_event CHAT_ID host node PostFrame ft w =
    if decide (update_interval st ≤ now - last_update_time st)%Qc
    then try_except (report_progress CHAT_ID host node (set_last_update_time now st1))
           (on_render_event_except CHAT_ID host node)
           (set_CURRENT_RENDERS (<[path node := set_last_update_time now st1]>) (tick w))
    else (set_CURRENT_RENDERS (<[path node := st1]>) (tick w), Return tt).
Proof.
  intros Hen E. cbv zeta. rewrite on_render_event_enabled by done.
  unfold try_except at 1. unfold on_render_event_try.
  rewrite (on_PostFrame_tracked node ft w st E). cbv zeta.
  by case_decide.
Qed.

Lemma on_render_event_PostRender node ft w st :
  NOTIFICATIONS_ENABLED w = true →
  CURRENT_RENDERS w !! path node = Some st →
  ∃ w1, report_outcome CHAT_ID host node st
          (clock host (ticks w) - start_time st)%Qc (tick w) = (w1, Return tt)
    ∧ on_render_event CHAT_ID host node PostRender ft w
      = (set_CURRENT_RENDERS (delete (path node)) w1, Return tt).
Proof.
  intros Hen E. destruct (on_PostRender_tracked node w st E) as (w1 & Hrun & Hpost).
  exists w1. split; [done|].
  rewrite on_render_event_enabled by done.
  unfold try_except, on_render_event_try. by rewrite Hpost.
Qed.

End HandlerFacts.

(** ** How one event changes the render-state dictionary *)

Section Steps.
Variable CHAT_ID : ChatId.
Variable host : Host.

Lemma size_add_pos (x : Qc) (X : gset Qc) : (0 < size ({[x]} ∪ X))%nat.
Proof.
  assert (size ({[x]} ∪ X) ≠ 0%nat); [|lia].
  apply size_non_empty_iff. set_solver.
Qed.

Lemma set_last_update_time_id st : set_last_update_time (last_update_time st) st = st.
Proof. by destruct st. Qed.

Lemma handle_disabled w e :
  NOTIFICATIONS_ENABLED w = false → handle CHAT_ID host w e = w.
Proof. intros E. unfold handle. by rewrite on_render_event_disabled. Qed.

Lemma handle_PreRender_tracked w node ft st :
  CURRENT_RENDERS w !! path node = Some st →
  on_render_event CHAT_ID host node PreRender ft w = (w, Return tt).
Proof.
  intros E. destruct (NOTIFICATIONS_ENABLED w) eqn:Hen.
  - rewrite on_render_event_enabled by done. unfold try_except, on_render_event_try.
    by erewrite on_PreRender_tracked.
  - by apply on_render_event_disabled.
Qed.

Lemma handle_PreRender_fresh w node ft :
  NOTIFICATIONS_ENABLED w = true →
  CURRENT_RENDERS w !! path node = None →
  ∃ st m, initialize_render_state host node w = (tick (tick w), Return st)
    ∧ CURRENT_RENDERS (handle CHAT_ID host w
        {| ev_node := node; ev_type := PreRender; ev_frame := ft |})
      = <[path node := set_message_id m st]> (CURRENT_RENDERS w)
    ∧ NOTIFICATIONS_ENABLED (handle CHAT_ID host w
        {| ev_node := node; ev_type := PreRender; ev_frame := ft |}) = true.
Proof.
  intros Hen E. unfold handle. cbn [ev_node ev_type ev_frame].
  rewrite on_render_event_enabled by done. unfold try_except, on_render_event_try.
  destruct (on_PreRender_fresh CHAT_ID host node w E)
    as (w' & st & m & -> & Hinit & Hcur & Hen' & _).
  exists st, m. simpl. by rewrite Hen'.
Qed.

Lemma handle_PostFrame_tracked w node ft st :
  NOTIFICATIONS_ENABLED w = true →
  CURRENT_RENDERS w !! path node = Some st →
  let w' := handle CHAT_ID host w {| ev_node := node; ev_type := PostFrame; ev_frame := ft |} in
  let st1 := set_completed_frames ({[ft]} ∪ completed_frames st) st in
  NOTIFICATIONS_ENABLED w' = true
  ∧ ((total_frames st = 0 ∧ CURRENT_RENDERS w' = delete (path node) (CURRENT_RENDERS w))
     ∨ ∃ t, CURRENT_RENDERS w'
            = <[path node := set_last_update_time t st1]> (CURRENT_RENDERS w)).
Proof.
  intros Hen E. cbv zeta. unfold handle. cbn [ev_node ev_type ev_frame].
  rewrite (on_render_event_PostFrame CHAT_ID host node ft w st Hen E). cbv zeta.
  set (st1 := set_completed_frames _ st).
  case_decide as Hdue.
  - set (st2 := set_last_update_time _ st1). set (w1 := set_CURRENT_RENDERS _ _).
    unfold try_except.
    destruct (decide (total_frames st = 0)) as [HT|HT].
    + destruct (report_progress_raises CHAT_ID host node st2 w1 HT) as (w2 & -> & Hio).
      destruct (on_render_event_except_run CHAT_ID host node ZeroDivisionError w2)
        as (w3 & -> & Hcur & Hen3 & _).
      simpl. destruct Hio as [Hen2 Hcur2 _ _].
      split; [by rewrite Hen3, Hen2|]. left. split; [done|].
      rewrite Hcur, Hcur2. subst w1. simpl. by rewrite delete_insert_eq.
    + destruct (report_progress_run CHAT_ID host node st2 w1 HT (size_add_pos _ _))
        as (w2 & -> & Hio & _).
      simpl. destruct Hio as [Hen2 Hcur2 _ _].
      split; [by rewrite Hen2|]. right. eexists. by rewrite Hcur2.
  - simpl. split; [done|]. right. exists (last_update_time st1).
    by rewrite set_last_update_time_id.
Qed.

Lemma handle_PostRender_tracked w node ft st :
  NOTIFICATIONS_ENABLED w = true →
  CURRENT_RENDERS w !! path node = Some st →
  let w' := handle CHAT_ID host w {| ev_node := node; ev_type := PostRender; ev_frame := ft |} in
  NOTIFICATIONS_ENABLED w' = true
  ∧ CURRENT_RENDERS w' = delete (path node) (CURRENT_RENDERS w).
Proof.
  intros Hen E. cbv zeta. unfold handle. cbn [ev_node ev_type ev_frame].
  destruct (on_render_event_PostRender CHAT_ID host node ft w st Hen E)
    as (w1 & Hrun & ->).
  destruct (report_outcome_spec CHAT_ID host node st
              (clock host (ticks w) - start_time st)%Qc (tick w))
    as (w1' & Hrun' & Hio & _).
  rewrite Hrun in Hrun'. injection Hrun' as <-.
  destruct Hio as [Hen1 Hcur1 _ _]. simpl. by rewrite Hen1, Hcur1.
Qed.

Lemma handle_untracked w node ev ft :
  ev ≠ PreRender →
  CURRENT_RENDERS w !! path node = None →
  handle CHAT_ID host w {| ev_node := node; ev_type := ev; ev_frame := ft |} = w.
Proof.
  intros Hev E. destruct (NOTIFICATIONS_ENABLED w) eqn:Hen; [|by apply handle_disabled].
  unfold handle. cbn [ev_node ev_type ev_frame].
  rewrite on_render_event_enabled by done. unfold try_except, on_render_event_try.
  destruct ev; [done| | |done].
  - by rewrite on_PostFrame_untracked.
  - by rewrite on_PostRender_untracked.
Qed.

(** The toggle is never changed by an event. *)
Lemma handle_enabled w e :
  NOTIFICATIONS_ENABLED (handle CHAT_ID host w e) = NOTIFICATIONS_ENABLED w.
Proof.
  destruct (NOTIFICATIONS_ENABLED w) eqn:Hen; [|by rewrite handle_disabled].
  destruct e as [node ev ft].
  destruct (CURRENT_RENDERS w !! path node) as [st|] eqn:E.
  - destruct ev.
    + unfold handle. cbn [ev_node ev_type ev_frame].
      by erewrite handle_PreRender_tracked.
    + by apply handle_PostFrame_tracked with (st := st).
    + by apply handle_PostRender_tracked with (st := st).
    + unfold handle. cbn [ev_node ev_type ev_frame].
      by rewrite on_render_event_enabled.
  - destruct (decide (ev = PreRender)) as [->|Hev].
    + by destruct (handle_PreRender_fresh w node ft Hen E) as (? & ? & _ & _ & ->).
    + by rewrite handle_untracked.
Qed.

End Steps.

(** ** Completion detection (PostRender) *)

Lemma texts_outcome_effect n T l :
  Forall (outcome_effect n T) l →
  Forall (λ v, if decide (0 < n < T) then v = Interrupted
               else if decide (n = T) then v = Complete ∨ v = Finished
               else v = Failed) (verdicts l).
Proof.
  intros Hl. unfold verdicts. apply Forall_fmap, Forall_forall. intros m Hm.
  apply list_elem_of_omap in Hm as (e & He & Hm).
  rewrite Forall_forall in Hl. specialize (Hl e He).
  unfold outcome_effect in Hl. simpl.
  repeat case_decide; destruct e as [[]|]; simplify_eq; simpl in *;
    try done; by destruct Hl.
Qed.

(** C1 (amended).  A PostRender event handled for a tracked node, with a chat
    configured: the render is reported complete (a text announcing completion,
    and the separate "RENDER FINISHED!" message) if and only if the number of
    completed frame times equals total_frames, and the completion is then an
    edit of the tracked message when the state holds a message id.  When the
    number is strictly between zero and the total, every text is the
    interrupted report, and it is posted as an edit of the tracked message
    when the state holds a message id.  When the number is zero and the total
    is not zero, every text is the failed report and one is posted. *)
Theorem postrender_report_by_frame_count CHAT_ID host node ft w st :
  NOTIFICATIONS_ENABLED w = true →
  CURRENT_RENDERS w !! path node = Some st →
  configured CHAT_ID →
  let n := Z.of_nat (size (completed_frames st)) in
  let T := total_frames st in
  let new := new_effects w (handle CHAT_ID host w
               {| ev_node := node; ev_type := PostRender; ev_frame := ft |}) in
  (n = T ↔ reports Complete new)
  ∧ (n = T ↔ sends Finished new)
  ∧ (n = T → ∀ mid, truthy (message_id st) = Some mid → edits CHAT_ID mid Complete new)
  ∧ (0 < n < T →
       Forall (eq Interrupted) (verdicts new)
       ∧ ∀ mid, truthy (message_id st) = Some mid → edits CHAT_ID mid Interrupted new)
  ∧ (n = 0 → T ≠ 0 → Forall (eq Failed) (verdicts new) ∧ reports Failed new).
Proof.
  intros Hen E Hc. cbv zeta. unfold handle. cbn [ev_node ev_type ev_frame].
  destruct (on_render_event_PostRender CHAT_ID host node ft w st Hen E)
    as (w1 & Hrun & ->).
  destruct (report_outcome_spec CHAT_ID host node st
              (clock host (ticks w) - start_time st)%Qc (tick w))
    as (w1' & Hrun' & Hio & Hint & Hcomp & Hfail).
  rewrite Hrun in Hrun'. injection Hrun' as <-.
  change (new_effects w (set_CURRENT_RENDERS _ w1, _).1) with (new_effects (tick w) w1).
  pose proof (texts_outcome_effect _ _ _ (io_new _ _ _ Hio)) as Hv.
  rewrite Forall_forall in Hv.
  set (new := new_effects (tick w) w1) in *.
  set (n := Z.of_nat (size (completed_frames st))) in *.
  set (T := total_frames st) in *.
  repeat split.
  - intros Heq. by apply Hcomp.
  - intros Hr. specialize (Hv _ Hr). simpl in Hv. repeat case_decide; done.
  - intros Heq. by apply Hcomp.
  - intros Hs%sends_reports. specialize (Hv _ Hs). simpl in Hv.
    repeat case_decide; done.
  - intros Heq. by apply Hcomp.
  - apply Forall_forall. intros v Hin. specialize (Hv _ Hin). simpl in Hv.
    by rewrite decide_True in Hv by done.
  - by apply Hint.
  - apply Forall_forall. intros v Hin. specialize (Hv _ Hin). simpl in Hv.
    by rewrite !decide_False in Hv by lia.
  - apply Hfail; [lia|lia|done].
Qed.

(** The hypotheses hold for frames 1..2 after frame 1 (an interrupted render). *)
Lemma postrender_report_witness :
  Forall (eq Interrupted)
    (verdicts (new_effects world_one_of_two
       (handle demo_chat demo_host world_one_of_two (event mantra_1_2 PostRender 0)))).
Proof.
  assert (∃ st, CURRENT_RENDERS world_one_of_two !! path mantra_1_2 = Some st
                ∧ 0 < Z.of_nat (size (completed_frames st)) < total_frames st)
    as (st & Hst & Hn).
  { eexists. split; [vm_compute; reflexivity|]. by vm_compute. }
  apply (postrender_report_by_frame_count demo_chat demo_host mantra_1_2
           (Qc_of_Z 0) world_one_of_two st); [reflexivity|exact Hst|exact I|exact Hn].
Defined.

(** With an empty frame range (total_frames 0) a PostRender that finds no
    completed frame reports the render complete, and not failed. *)
Lemma postrender_zero_of_zero_reported_complete :
  ∃ st, CURRENT_RENDERS world_empty_range !! path mantra_2_1 = Some st
    ∧ size (completed_frames st) = 0%nat
    ∧ reports Complete (new_effects world_empty_range
        (handle demo_chat demo_host world_empty_range (event mantra_2_1 PostRender 0)))
    ∧ ¬ reports Failed (new_effects world_empty_range
        (handle demo_chat demo_host world_empty_range (event mantra_2_1 PostRender 0))).
Proof.
  eexists. split; [vm_compute; reflexivity|]. split; [by vm_compute|].
  split; apply (bool_decide_unpack _); by vm_compute.
Qed.

(** ** Lifecycle of a render state *)

(** C4 (amended).  A PreRender event for a node that is already tracked
    returns with the whole world unchanged (no state is modified, nothing is
    sent); an entry can only appear through a PreRender event of its own
    node; a PostRender event handled while notifications are enabled leaves a
    tracked node without an entry; and while notifications are disabled every
    event, PostRender included, returns with the world unchanged, so that an
    entry is then kept. *)
Theorem render_state_lifecycle CHAT_ID host node ft w :
  (∀ st, CURRENT_RENDERS w !! path node = Some st →
     on_render_event CHAT_ID host node PreRender ft w = (w, Return tt))
  ∧ (∀ ev q, CURRENT_RENDERS w !! q = None →
       is_Some (CURRENT_RENDERS (handle CHAT_ID host w
                  {| ev_node := node; ev_type := ev; ev_frame := ft |}) !! q) →
       ev = PreRender ∧ q = path node)
  ∧ (∀ st, NOTIFICATIONS_ENABLED w = true →
       CURRENT_RENDERS w !! path node = Some st →
       CURRENT_RENDERS (handle CHAT_ID host w
         {| ev_node := node; ev_type := PostRender; ev_frame := ft |}) !! path node = None)
  ∧ (NOTIFICATIONS_ENABLED w = false →
     ∀ ev, on_render_event CHAT_ID host node ev ft w = (w, Return tt)).
Proof.
  split; [|split; [|split]].
  - intros st E. by eapply handle_PreRender_tracked.
  - intros ev q Hq [st' Hq'].
    destruct (NOTIFICATIONS_ENABLED w) eqn:Hen;
      [|rewrite handle_disabled in Hq' by done; congruence].
    destruct (CURRENT_RENDERS w !! path node) as [st|] eqn:E.
    + assert (q ≠ path node) as Hne by congruence.
      destruct ev.
      * unfold handle in Hq'. cbn [ev_node ev_type ev_frame] in Hq'.
        erewrite handle_PreRender_tracked in Hq' by done. simpl in Hq'. congruence.
      * destruct (handle_PostFrame_tracked CHAT_ID host w node ft st Hen E)
          as [_ [[_ Hcur]|[t Hcur]]]; rewrite Hcur in Hq'.
        -- rewrite lookup_delete_ne in Hq' by done. congruence.
        -- rewrite lookup_insert_ne in Hq' by done. congruence.
      * destruct (handle_PostRender_tracked CHAT_ID host w node ft st Hen E) as [_ Hcur].
        rewrite Hcur, lookup_delete_ne in Hq' by done. congruence.
      * unfold handle in Hq'. cbn [ev_node ev_type ev_frame] in Hq'.
        rewrite on_render_event_enabled in Hq' by done. simpl in Hq'. congruence.
    + destruct (decide (ev = PreRender)) as [->|Hev].
      * split; [done|].
        destruct (handle_PreRender_fresh CHAT_ID host w node ft Hen E)
          as (st & m & _ & Hcur & _).
        rewrite Hcur in Hq'. destruct (decide (q = path node)) as [|Hne]; [done|].
        rewrite lookup_insert_ne in Hq' by done. congruence.
      * rewrite handle_untracked in Hq' by done. congruence.
  - intros st Hen E.
    destruct (handle_PostRender_tracked CHAT_ID host w node ft st Hen E) as [_ ->].
    apply lookup_delete_eq.
  - intros Hen ev. by apply on_render_event_disabled.
Qed.

(** The third part at work: the render of frames 1..2 is stopped after
    frame 1. *)
Lemma render_state_lifecycle_witness :
  CURRENT_RENDERS (handle demo_chat demo_host world_one_of_two
                     (event mantra_1_2 PostRender 0)) !! path mantra_1_2 = None.
Proof.
  assert (∃ st, CURRENT_RENDERS world_one_of_two !! path mantra_1_2 = Some st) as [st Hst].
  { eexists. vm_compute. reflexivity. }
  apply (proj1 (proj2 (proj2 (render_state_lifecycle demo_chat demo_host mantra_1_2
                         (Qc_of_Z 0) world_one_of_two))) st); [reflexivity|exact Hst].
Defined.

(** The state of a render that ended while notifications were switched off
    is still there when the node's next render starts: frames 1..2 are
    stopped after frame 1 with notifications off, notifications are switched
    on again, and the PreRender event of the next render meets the old entry,
    with frame 1 of the finished render counted, and is ignored. *)
Lemma render_state_outlives_its_render :
  let ended := handle demo_chat demo_host (toggle_notifications world_one_of_two)
                 (event mantra_1_2 PostRender 0) in
  let next := handle demo_chat demo_host (toggle_notifications ended)
                (event mantra_1_2 PreRender 0) in
  NOTIFICATIONS_ENABLED (toggle_notifications ended) = true
  ∧ CURRENT_RENDERS next !! path mantra_1_2
    = CURRENT_RENDERS world_one_of_two !! path mantra_1_2
  ∧ frames_done next (path mantra_1_2) = Some 1%nat
  ∧ outbox next = outbox world_one_of_two.
Proof.
  cbv zeta. split; [|split; [|split]]; vm_compute; reflexivity.
Qed.

(** ** Exceptions never reach the host *)

(** With [path()] returning, the handler is [on_render_event]. *)
Lemma on_render_event_host_reachable CHAT_ID host h ev ft w :
  path_raises h = false →
  on_render_event_host CHAT_ID host h ev ft w
  = on_render_event CHAT_ID host (node_data h) ev ft w.
Proof.
  intros Hp. unfold on_render_event_host, on_render_event.
  rewrite !bind_run, !run_get_world. cbv beta iota.
  destruct (NOTIFICATIONS_ENABLED w); [|done].
  unfold try_except, node_path_call. rewrite Hp.
  change ((mret (path (node_data h)) ;; on_render_event_try CHAT_ID host (node_data h) ev ft) w)
    with (on_render_event_try CHAT_ID host (node_data h) ev ft w).
  destruct (on_render_event_try CHAT_ID host (node_data h) ev ft w) as [w1 [[]|e]]; [done|].
  unfold on_render_event_host_except, on_render_event_except, get_node_name_call,
    get_node_name, node_path_call.
  rewrite Hp. destruct (name (node_data h)); reflexivity.
Qed.

(** C5 (amended).  For a node whose [path()] call returns, [on_render_event]
    returns normally for every event and world.  When the body of its [try]
    raises an exception, the except clause reports it: every message request
    it makes carries the error report built from that exception and the node
    name, one such message is posted when a chat is configured, and
    afterwards the node has no entry in CURRENT_RENDERS. *)
Theorem on_render_event_never_propagates CHAT_ID host h ev ft w :
  path_raises h = false →
  let node := node_data h in
  (on_render_event_host CHAT_ID host h ev ft w).2 = Return tt
  ∧ (∀ w1 e, NOTIFICATIONS_ENABLED w = true →
       on_render_event_try CHAT_ID host node ev ft w = (w1, Raise e) →
       let w' := (on_render_event_host CHAT_ID host h ev ft w).1 in
       let report := ErrorDetails (get_node_name node) e in
       Forall (says (eq report)) (new_effects w1 w')
       ∧ (configured CHAT_ID → ∃ chat, Post (sendMessage chat report) ∈ new_effects w1 w')
       ∧ CURRENT_RENDERS w' !! path node = None).
Proof.
  intros Hp. cbv zeta. rewrite on_render_event_host_reachable by done.
  set (node := node_data h). split.
  - destruct (NOTIFICATIONS_ENABLED w) eqn:Hen;
      [|by rewrite on_render_event_disabled].
    rewrite on_render_event_enabled by done. unfold try_except.
    destruct (on_render_event_try CHAT_ID host node ev ft w) as [w1 [[]|e]]; [done|].
    by destruct (on_render_event_except_run CHAT_ID host node e w1) as (w' & -> & _).
  - intros w1 e Hen Hraise.
    rewrite on_render_event_enabled by done. unfold try_except. rewrite Hraise.
    destruct (on_render_event_except_run CHAT_ID host node e w1)
      as (w' & -> & Hcur & _ & _ & Hnew & Hpost).
    simpl. split; [done|]. split; [done|]. rewrite Hcur. apply lookup_delete_eq.
Qed.

(** An exception at work: with an empty frame range the progress report of
    the first due PostFrame divides by zero. *)
Lemma on_render_event_never_propagates_witness :
  CURRENT_RENDERS (on_render_event_host demo_chat demo_host mantra_2_1_reachable PostFrame
                     (Qc_of_Z 1) world_empty_range).1 !! path mantra_2_1 = None.
Proof.
  apply (proj2 (on_render_event_never_propagates demo_chat demo_host mantra_2_1_reachable
                  PostFrame (Qc_of_Z 1) world_empty_range eq_refl)
           (on_render_event_try demo_chat demo_host mantra_2_1 PostFrame (Qc_of_Z 1)
              world_empty_range).1 ZeroDivisionError);
    [reflexivity|vm_compute; reflexivity].
Defined.

(** An exception that reaches the host, and one that is reported to nobody.
    For a node whose [path()] raises, the PostRender event raises at line
    449; the except clause sends its report and then raises itself at line
    631, leaving the entry of the node in place; when the node's [name()]
    raises too, the clause raises at line 619 before anything is sent.  And
    with an empty list of chats the division by zero of a due PostFrame event
    on an empty frame range is caught, but no request is made at all. *)
Lemma on_render_event_propagates_or_reports_to_nobody :
  (on_render_event_host demo_chat demo_host mantra_1_2_unreachable PostRender (Qc_of_Z 0)
     world_one_of_two).2 = Raise OperationFailed
  ∧ is_Some (CURRENT_RENDERS
               (on_render_event_host demo_chat demo_host mantra_1_2_unreachable PostRender
                  (Qc_of_Z 0) world_one_of_two).1 !! path mantra_1_2)
  ∧ on_render_event_host demo_chat demo_host deleted_node PostRender (Qc_of_Z 0)
      world_one_of_two = (world_one_of_two, Raise OperationFailed)
  ∧ (let w := run (ChatList []) demo_host enabled_world [event mantra_2_1 PreRender 0] in
     (on_render_event_try (ChatList []) demo_host mantra_2_1 PostFrame (Qc_of_Z 1) w).2
     = Raise ZeroDivisionError
     ∧ requests (outbox (handle (ChatList []) demo_host w (event mantra_2_1 PostFrame 1)))
       = []).
Proof.
  cbv zeta. split; [by vm_compute|]. split; [eexists; vm_compute; reflexivity|].
  split; [by vm_compute|]. split; by vm_compute.
Qed.

(** ** Frame counting *)

Section Counting.
Variable CHAT_ID : ChatId.
Variable host : Host.



End Counting.





(** ** The frame-count bound *)

Lemma Qc_of_Z_inj : Inj (=) (=) Qc_of_Z.
Proof. intros a b E. by injection E. Qed.

(** A set of integers of [lo..hi] has at most [hi - lo + 1] elements. *)
Lemma size_integral_in (X : gset Qc) lo hi :
  (∀ x, x ∈ X → integral_in lo hi x) →
  Z.of_nat (size X) ≤ Z.max 0 (hi - lo + 1).
Proof.
  intros HX.
  assert (X ⊆ list_to_set (Qc_of_Z <$> seqZ lo (hi - lo + 1))) as Hsub.
  { intros x (z & -> & Hz)%HX. apply elem_of_list_to_set, list_elem_of_fmap.
    exists z. split; [done|]. apply elem_of_seqZ. lia. }
  apply subseteq_size in Hsub.
  rewrite size_list_to_set in Hsub by (apply NoDup_fmap_2; [exact Qc_of_Z_inj|apply NoDup_seqZ]).
  rewrite length_fmap, length_seqZ in Hsub. lia.
Qed.

Lemma frames_fit_bound (w : World) :
  (∀ p st, CURRENT_RENDERS w !! p = Some st → frames_fit st) → frame_bound w.
Proof.
  intros Hfit p st [Hin Hmax]%Hfit.
  pose proof (size_integral_in _ _ _ Hin). lia.
Qed.

Lemma handle_frames_fit CHAT_ID host w e :
  (∀ p st, CURRENT_RENDERS w !! p = Some st → frames_fit st) →
  (ev_type e = PostFrame →
   ∀ st, CURRENT_RENDERS w !! path (ev_node e) = Some st →
         integral_in (start_frame st) (end_frame st) (ev_frame e)) →
  (ev_type e = PreRender → range_fits (ev_node e)) →
  ∀ p st, CURRENT_RENDERS (handle CHAT_ID host w e) !! p = Some st → frames_fit st.
Proof.
  intros Hfit Hframe Hrange p st' Hp.
  destruct (NOTIFICATIONS_ENABLED w) eqn:Hen;
    [|rewrite handle_disabled in Hp by done; eauto].
  destruct e as [node ev ft]. cbn [ev_node ev_type ev_frame] in *.
  destruct (CURRENT_RENDERS w !! path node) as [st|] eqn:E.
  - destruct ev.
    + unfold handle in Hp. cbn [ev_node ev_type ev_frame] in Hp.
      erewrite handle_PreRender_tracked in Hp by done. eauto.
    + destruct (handle_PostFrame_tracked CHAT_ID host w node ft st Hen E)
        as [_ [[_ Hcur]|[t Hcur]]]; rewrite Hcur in Hp.
      * apply lookup_delete_Some in Hp as [_ Hp]. eauto.
      * apply lookup_insert_Some in Hp as [[_ <-]|[_ Hp]]; [|by eauto].
        destruct (Hfit _ _ E) as [Hin Hmax]. split; [|done]. simpl.
        intros x [->%elem_of_singleton|Hx]%elem_of_union; [by apply Hframe|by apply Hin].
    + destruct (handle_PostRender_tracked CHAT_ID host w node ft st Hen E) as [_ Hcur].
      rewrite Hcur in Hp. apply lookup_delete_Some in Hp as [_ Hp]. eauto.
    + unfold handle in Hp. cbn [ev_node ev_type ev_frame] in Hp.
      rewrite on_render_event_enabled in Hp by done. simpl in Hp. eauto.
  - destruct (decide (ev = PreRender)) as [->|Hev];
      [|rewrite handle_untracked in Hp by done; eauto].
    destruct (handle_PreRender_fresh CHAT_ID host w node ft Hen E)
      as (st & m & Hinit & Hcur & _).
    rewrite Hcur in Hp.
    apply lookup_insert_Some in Hp as [[_ <-]|[_ Hp]]; [|by eauto].
    destruct (run_initialize_render_state host node w)
      as (st0 & Hinit0 & _ & _ & Hfr & HT & Hs & He & _).
    rewrite Hinit in Hinit0. injection Hinit0 as <-.
    split; simpl.
    + rewrite Hfr. set_solver.
    + rewrite HT, Hs, He. by apply Hrange.
Qed.

(** C2 (amended).  Start from a world that tracks no render.  For every run
    of events in which each PostFrame event carries an integral frame time
    within start_frame..end_frame of the state it meets, and each PreRender
    event comes from a node whose range fits (the integers from int(start) to
    int(end) number at most int(end - start + 1), as when start ≤ end are
    integers or the (1, 1) fallback applies), the size of every completed-frame
    set is at most its total_frames after every event. *)
Theorem frame_count_bounded CHAT_ID host : ∀ evs w,
  CURRENT_RENDERS w = ∅ →
  frames_in_range CHAT_ID host w evs →
  Forall (λ e, ev_type e = PreRender → range_fits (ev_node e)) evs →
  Forall frame_bound (trace CHAT_ID host w evs).
Proof.
  intros evs w Hempty.
  assert (∀ p st, CURRENT_RENDERS w !! p = Some st → frames_fit st) as Hfit.
  { intros p st. by rewrite Hempty, lookup_empty. }
  clear Hempty. revert w Hfit.
  induction evs as [|e evs IH]; intros w Hfit Hframes Hranges; [constructor|].
  destruct Hframes as [Hframe Hframes]. apply Forall_cons in Hranges as [Hrange Hranges].
  pose proof (handle_frames_fit CHAT_ID host w e Hfit Hframe Hrange) as Hfit'.
  simpl. constructor; [by apply frames_fit_bound|by apply IH].
Qed.

Lemma py_int_of_Z z : py_int (Qc_of_Z z) = z.
Proof. unfold py_int. simpl. apply Z.quot_1_r. Qed.

(** Integral bounds with [first ≤ last + 1] fit. *)
Lemma range_fits_integral node first last :
  get_sequence_range node = (Qc_of_Z first, Qc_of_Z last) →
  first ≤ last + 1 → range_fits node.
Proof.
  intros E Hle. unfold range_fits. rewrite E. simpl.
  rewrite <-Z2Qc_inj_sub, <-Z2Qc_inj_add, !py_int_of_Z. lia.
Qed.

(** The hypotheses hold for a whole render of frames 1..2. *)
Lemma frame_count_bounded_witness :
  Forall frame_bound (trace demo_chat demo_host enabled_world full_render).
Proof.
  apply frame_count_bounded.
  - reflexivity.
  - unfold full_render. cbn [frames_in_range].
    repeat split; try done.
    + intros _ st Hst. vm_compute in Hst. injection Hst as <-. exists 1. by vm_compute.
    + intros _ st Hst. vm_compute in Hst. injection Hst as <-. exists 2. by vm_compute.
  - unfold full_render. repeat constructor; try done.
Defined.

(** Without the condition on the range the bound fails: for a node whose
    last frame lies below its first, total_frames is negative as soon as the
    render starts, while every PostFrame event (there is none) is in range. *)
Lemma frame_count_unbounded_reversed_range :
  CURRENT_RENDERS enabled_world = ∅
  ∧ frames_in_range demo_chat demo_host enabled_world [event mantra_3_1 PreRender 0]
  ∧ ¬ Forall frame_bound
        (trace demo_chat demo_host enabled_world [event mantra_3_1 PreRender 0]).
Proof.
  split; [reflexivity|]. split; [by split|].
  intros [Hb _]%Forall_cons.
  assert (∃ st, CURRENT_RENDERS (handle demo_chat demo_host enabled_world
                                   (event mantra_3_1 PreRender 0)) !! path mantra_3_1
                = Some st ∧ ¬ Z.of_nat (size (completed_frames st)) ≤ total_frames st)
    as (st & Hst & Hsize).
  { eexists. split; [vm_compute; reflexivity|]. by vm_compute. }
  by apply Hsize, (Hb _ _ Hst).
Qed.

(** The same failure with fractional bounds: the range 1/2..2 gives
    total_frames 2, while 0, 1 and 2 all lie in start_frame..end_frame. *)
Lemma frame_count_unbounded_fractional_range :
  let evs := [event mantra_half_2 PreRender 0; event mantra_half_2 PostFrame 0;
              event mantra_half_2 PostFrame 1; event mantra_half_2 PostFrame 2] in
  frames_in_range demo_chat demo_host enabled_world evs
  ∧ ¬ frame_bound (run demo_chat demo_host enabled_world evs).
Proof.
  cbv zeta. split.
  - cbn [frames_in_range].
    repeat split; try done.
    + intros _ st Hst. vm_compute in Hst. injection Hst as <-. exists 0. by vm_compute.
    + intros _ st Hst. vm_compute in Hst. injection Hst as <-. exists 1. by vm_compute.
    + intros _ st Hst. vm_compute in Hst. injection Hst as <-. exists 2. by vm_compute.
  - intros Hb.
    assert (∃ st, CURRENT_RENDERS (run demo_chat demo_host enabled_world
                    [event mantra_half_2 PreRender 0; event mantra_half_2 PostFrame 0;
                     event mantra_half_2 PostFrame 1; event mantra_half_2 PostFrame 2])
                  !! path mantra_half_2 = Some st
                  ∧ ¬ Z.of_nat (size (completed_frames st)) ≤ total_frames st)
      as (st & Hst & Hsize).
    { eexists. split; [vm_compute; reflexivity|]. by vm_compute. }
    by apply Hsize, (Hb _ _ Hst).
Qed.

(** ** Progress reports (PostFrame) *)

Lemma py_max0_nonneg x : (0 ≤ py_max0 x)%Qc.
Proof. unfold py_max0. case_decide; [by apply Qclt_le_weak|done]. Qed.

(** Two progress reports are equal only if their fields are. *)
Lemma RenderInProgress_inj eng nm fd tot pct bar el rem ct avg
    eng' nm' fd' tot' pct' bar' el' rem' ct' avg' :
  RenderInProgress eng nm fd tot pct bar el rem ct avg
  = RenderInProgress eng' nm' fd' tot' pct' bar' el' rem' ct' avg' →
  eng = eng' ∧ nm = nm' ∧ fd = fd' ∧ tot = tot' ∧ pct = pct' ∧ bar = bar'
  ∧ el = el' ∧ rem = rem' ∧ ct = ct' ∧ avg = avg'.
Proof. intros [= -> -> -> -> -> -> -> -> -> ->]. by repeat split. Qed.

(** C6.  Every progress report produced by a PostFrame event shows a
    positive number of completed frames [frames_done] out of [total_frames];
    its progress percent is (frames_done / total_frames) × 100, its average
    per frame is format_time of elapsed / frames_done, and its estimated
    remaining time is format_time of max(0, average × total_frames − elapsed),
    a number that is never negative.  Such a report is posted whenever the
    update is due, total_frames is not zero and a message id is held. *)
Theorem progress_report_values CHAT_ID host node ft w st :
  NOTIFICATIONS_ENABLED w = true →
  CURRENT_RENDERS w !! path node = Some st →
  let new := new_effects w (handle CHAT_ID host w
               {| ev_node := node; ev_type := PostFrame; ev_frame := ft |}) in
  let frames_done := size ({[ft]} ∪ completed_frames st) in
  let total := total_frames st in
  let elapsed := (clock host (S (ticks w)) - start_time st)%Qc in
  let average := (elapsed / Qc_of_Z (Z.of_nat frames_done))%Qc in
  let remaining := py_max0 (average * Qc_of_Z total - elapsed) in
  (∀ eng nm fd tot pct bar el rem ct avg,
     RenderInProgress eng nm fd tot pct bar el rem ct avg ∈ texts new →
     (0 < frames_done)%nat ∧ fd = frames_done ∧ tot = total
     ∧ pct = (Qc_of_Z (Z.of_nat frames_done) / Qc_of_Z total * Qc_of_Z 100)%Qc
     ∧ avg = format_time average
     ∧ rem = format_time remaining
     ∧ (0 ≤ remaining)%Qc)
  ∧ ((update_interval st ≤ clock host (ticks w) - last_update_time st)%Qc →
     total ≠ 0 →
     ∀ mid, truthy (message_id st) = Some mid → edits CHAT_ID mid Progress new).
Proof.
  intros Hen E. cbv zeta. unfold handle. cbn [ev_node ev_type ev_frame].
  rewrite (on_render_event_PostFrame CHAT_ID host node ft w st Hen E). cbv zeta.
  set (st1 := set_completed_frames _ st).
  case_decide as Hdue.
  - set (st2 := set_last_update_time _ st1). set (w1 := set_CURRENT_RENDERS _ _).
    unfold try_except.
    destruct (decide (total_frames st = 0)) as [HT|HT].
    + destruct (report_progress_raises CHAT_ID host node st2 w1 HT) as (w2 & -> & Hio).
      destruct (on_render_event_except_run CHAT_ID host node ZeroDivisionError w2)
        as (w3 & -> & _ & _ & Hpre & Hnew & _).
      split; [|done]. simpl.
      change (new_effects w w3) with (new_effects w1 w3).
      rewrite (new_effects_trans w1 w2 w3) by (done || apply Hio).
      intros eng nm fd tot pct bar el rem ct avg Hin.
      pose proof (io_new _ _ _ Hio) as Hnone.
      destruct (new_effects w1 w2) as [|e l]; [|by apply Forall_cons in Hnone as [[] _]].
      apply Forall_texts in Hnew. rewrite Forall_forall in Hnew.
      by specialize (Hnew _ Hin).
    + pose proof (size_add_pos ft (completed_frames st)) as Hpos.
      destruct (report_progress_run CHAT_ID host node st2 w1 HT Hpos)
        as (w2 & -> & Hio & Hpost).
      simpl. change (new_effects w w2) with (new_effects w1 w2).
      split.
      * intros eng nm fd tot pct bar el rem ct avg Hin.
        pose proof (Forall_texts _ _ (io_new _ _ _ Hio)) as Hnew.
        rewrite Forall_forall in Hnew. specialize (Hnew _ Hin).
        apply RenderInProgress_inj in Hnew
          as (_ & _ & <- & <- & <- & _ & _ & <- & _ & <-).
        split; [done|]. do 5 (split; [reflexivity|]). apply py_max0_nonneg.
      * intros _ _ mid Hmid. change (message_id st2) with (message_id st) in Hpost.
        rewrite Hmid in Hpost. eexists. split; [|exact Hpost]. done.
  - simpl. rewrite new_effects_same by done. split; [|done].
    intros eng nm fd tot pct bar el rem ct avg Hin. by apply elem_of_nil in Hin.
Qed.

(** The hypotheses hold for frames 1..2 after frame 1, when frame 2 arrives:
    the tracked message 77 is edited with a progress report. *)
Lemma progress_report_values_witness :
  edits demo_chat 77 Progress
    (new_effects world_one_of_two
       (handle demo_chat demo_host world_one_of_two
          {| ev_node := mantra_1_2; ev_type := PostFrame; ev_frame := Qc_of_Z 2 |})).
Proof.
  assert (∃ st, CURRENT_RENDERS world_one_of_two !! path mantra_1_2 = Some st
                ∧ (update_interval st
                   ≤ clock demo_host (ticks world_one_of_two) - last_update_time st)%Qc
                ∧ total_frames st ≠ 0
                ∧ truthy (message_id st) = Some 77)
    as (st & Hst & Hdue & HT & Hmid).
  { eexists. split; [vm_compute; reflexivity|]. repeat split; by vm_compute. }
  apply (proj2 (progress_report_values demo_chat demo_host mantra_1_2 (Qc_of_Z 2)
                  world_one_of_two st eq_refl Hst) Hdue HT 77 Hmid).
Defined.

(** ** Periodic progress reports *)

Lemma progress_edited_says (P : Message → Prop) l :
  (∀ m, P m → verdict m ≠ Progress) → Forall (says P) l → progress_edited l = false.
Proof.
  intros HP Hl. unfold progress_edited.
  induction Hl as [|e l He Hl IH]; [done|]. simpl. rewrite IH, orb_false_r.
  destruct e as [[]|]; simpl in *; try done.
  apply bool_decide_eq_false. by apply HP.
Qed.

Lemma progress_edit_times_untracked CHAT_ID host node fts w :
  CURRENT_RENDERS w !! path node = None →
  progress_edit_times CHAT_ID host node fts w = [].
Proof.
  intros E. induction fts as [|ft fts IH]; [done|].
  simpl. rewrite handle_untracked by done.
  by rewrite new_effects_same.
Qed.

(** One PostFrame event: either no progress edit is made and the time of the
    last update is kept (or the entry is lost), or the update was due and the
    time of the last update becomes the reading just taken. *)
Lemma PostFrame_edit_step CHAT_ID host node ft w st :
  NOTIFICATIONS_ENABLED w = true →
  CURRENT_RENDERS w !! path node = Some st →
  let w' := handle CHAT_ID host w {| ev_node := node; ev_type := PostFrame; ev_frame := ft |} in
  let now := clock host (ticks w) in
  NOTIFICATIONS_ENABLED w' = true
  ∧ ((progress_edited (new_effects w w') = false
      ∧ (CURRENT_RENDERS w' !! path node = None
         ∨ ∃ st', CURRENT_RENDERS w' !! path node = Some st'
               ∧ update_interval st' = update_interval st
               ∧ last_update_time st' = last_update_time st))
     ∨ ((update_interval st ≤ now - last_update_time st)%Qc
        ∧ ∃ st', CURRENT_RENDERS w' !! path node = Some st'
              ∧ update_interval st' = update_interval st
              ∧ last_update_time st' = now)).
Proof.
  intros Hen E. cbv zeta.
  split; [by rewrite handle_enabled|].
  unfold handle. cbn [ev_node ev_type ev_frame].
  rewrite (on_render_event_PostFrame CHAT_ID host node ft w st Hen E). cbv zeta.
  set (st1 := set_completed_frames _ st).
  case_decide as Hdue.
  - set (st2 := set_last_update_time _ st1). set (w1 := set_CURRENT_RENDERS _ _).
    unfold try_except.
    destruct (decide (total_frames st = 0)) as [HT|HT].
    + destruct (report_progress_raises CHAT_ID host node st2 w1 HT) as (w2 & -> & Hio).
      destruct (on_render_event_except_run CHAT_ID host node ZeroDivisionError w2)
        as (w3 & -> & Hcur & _ & Hpre & Hnew & _).
      left. simpl. split.
      * change (new_effects w w3) with (new_effects w1 w3).
        rewrite (new_effects_trans w1 w2 w3) by (done || apply Hio).
        pose proof (io_new _ _ _ Hio) as Hnone.
        destruct (new_effects w1 w2) as [|e l]; [|by apply Forall_cons in Hnone as [[] _]].
        eapply progress_edited_says; [|exact Hnew]. by intros m <-.
      * left. rewrite Hcur. apply lookup_delete_eq.
    + destruct (report_progress_run CHAT_ID host node st2 w1 HT (size_add_pos _ _))
        as (w2 & -> & Hio & _).
      right. split; [done|]. exists st2. simpl.
      destruct Hio as [_ -> _ _]. subst w1. simpl. by rewrite lookup_insert_eq.
  - left. simpl. rewrite new_effects_same by done. split; [done|].
    right. exists st1. by rewrite lookup_insert_eq.
Qed.

Lemma spaced_earlier gap a b l :
  (0 ≤ gap)%Qc → (gap ≤ b - a)%Qc → spaced gap (b :: l) → spaced gap (a :: l).
Proof.
  intros Hgap Hab Hl. destruct l as [|c l]; [done|].
  destruct Hl as [Hbc Hl]. split; [|done].
  replace (c - a)%Qc with ((c - b) + (b - a))%Qc by ring.
  rewrite <-(Qcplus_0_r gap).
  apply Qcplus_le_compat; [done|]. by trans gap.
Qed.

Lemma progress_edit_times_spaced CHAT_ID host node fts : ∀ w st,
  NOTIFICATIONS_ENABLED w = true →
  CURRENT_RENDERS w !! path node = Some st →
  (0 ≤ update_interval st)%Qc →
  spaced (update_interval st)
    (last_update_time st :: progress_edit_times CHAT_ID host node fts w).
Proof.
  induction fts as [|ft fts IH]; intros w st Hen E Hgap; [done|].
  cbn [progress_edit_times].
  destruct (PostFrame_edit_step CHAT_ID host node ft w st Hen E)
    as [Hen' [[-> [Hnone|(st' & Hst' & Hint & Hlast)]]|[Hdue (st' & Hst' & Hint & Hlast)]]].
  - by rewrite progress_edit_times_untracked.
  - rewrite <-Hint, <-Hlast. apply (IH _ _ Hen' Hst'). by rewrite Hint.
  - specialize (IH _ _ Hen' Hst'). rewrite Hint, Hlast in IH. specialize (IH Hgap).
    destruct (progress_edited _); simpl.
    + by split.
    + by eapply spaced_earlier.
Qed.

(** C7 (amended).  [should_update_progress] returns True exactly when at
    least update_interval seconds lie between last_update_time and the clock
    reading it takes; it then sets last_update_time to that reading, and
    otherwise returns the state unchanged.  A freshly initialized state has
    update_interval 2.  Hence, along any run of PostFrame events of a tracked
    node, the readings at which the tracked message is edited with a progress
    report are at least update_interval apart, the first of them at least
    update_interval after the state's last_update_time.  (The edit made by
    the PostRender event is not held back.) *)
Theorem progress_reports_periodic CHAT_ID host :
  (∀ st w,
     let now := clock host (ticks w) in
     ∃ update st', should_update_progress host st w = (tick w, Return (update, st'))
       ∧ (update = true ↔ (update_interval st ≤ now - last_update_time st)%Qc)
       ∧ st' = if update then set_last_update_time now st else st)
  ∧ (∀ node w, ∃ w' st, initialize_render_state host node w = (w', Return st)
                 ∧ update_interval st = Qc_of_Z 2)
  ∧ (∀ node fts w st,
       NOTIFICATIONS_ENABLED w = true →
       CURRENT_RENDERS w !! path node = Some st →
       (0 ≤ update_interval st)%Qc →
       spaced (update_interval st)
         (last_update_time st :: progress_edit_times CHAT_ID host node fts w)).
Proof.
  split; [|split].
  - intros st w. cbv zeta. rewrite run_should_update_progress.
    case_decide; eexists _, _; (split; [done|]); by split.
  - intros node w.
    destruct (run_initialize_render_state host node w) as (st & Hrun & Hrest).
    exists (tick (tick w)), st. split; [done|]. apply Hrest.
  - intros node fts w st. apply progress_edit_times_spaced.
Qed.

(** The hypotheses hold for frames 1..2 after frame 1; two further PostFrame
    events three seconds apart both edit the progress message. *)
Lemma progress_reports_periodic_witness :
  ∃ last, spaced (Qc_of_Z 2)
            (last :: progress_edit_times demo_chat demo_host mantra_1_2
                       [Qc_of_Z 2; Qc_of_Z 2] world_one_of_two).
Proof.
  assert (∃ st, CURRENT_RENDERS world_one_of_two !! path mantra_1_2 = Some st
                ∧ update_interval st = Qc_of_Z 2) as (st & Hst & Hint).
  { eexists. split; [vm_compute; reflexivity|]. reflexivity. }
  exists (last_update_time st). rewrite <-Hint at 1.
  apply (proj2 (proj2 (progress_reports_periodic demo_chat demo_host))
           mantra_1_2 [Qc_of_Z 2; Qc_of_Z 2] world_one_of_two st eq_refl Hst).
  rewrite Hint. by vm_compute.
Defined.

(** The tracked message is edited twice at the same instant: on a host whose
    clock stands still after the first PostFrame event became due, that
    event edits message 77 with a progress report and the PostRender event
    that follows edits it again, with the interrupted report, while
    update_interval is 2. *)
Lemma tracked_message_edited_twice_within_interval :
  let render := [event mantra_1_2 PreRender 0; event mantra_1_2 PostFrame 1;
                 event mantra_1_2 PostRender 0] in
  edit_times demo_chat rushing_host 77 render enabled_world = [Qc_of_Z 6; Qc_of_Z 6]
  ∧ ¬ spaced (Qc_of_Z 2) (edit_times demo_chat rushing_host 77 render enabled_world)
  ∧ (∃ st, CURRENT_RENDERS (run demo_chat rushing_host enabled_world (take 2 render))
             !! path mantra_1_2 = Some st
           ∧ message_id st = Some 77 ∧ update_interval st = Qc_of_Z 2).
Proof.
  cbv zeta.
  assert (edit_times demo_chat rushing_host 77
            [event mantra_1_2 PreRender 0; event mantra_1_2 PostFrame 1;
             event mantra_1_2 PostRender 0] enabled_world
          = [Qc_of_Z 6; Qc_of_Z 6]) as -> by (by vm_compute).
  split; [done|]. split.
  - intros [H _]. by vm_compute in H.
  - eexists. split; [vm_compute; reflexivity|]. split; by vm_compute.
Qed.

(** ** The statistics window *)

(** C9.  After any sequence of calls to [update_render_stats] in a session,
    the entry of a node path exists exactly when the path was passed at least
    once; its 'times' list holds at most 10 entries, namely the last ten
    render times passed for that path, oldest first, while total_renders,
    frames_rendered and total_time count and sum all the calls for the path. *)
Theorem session_stats_window (calls : list (string * Qc * Z)) (node_path : string) :
  let mine := filter (λ c, c.1.1 = node_path) calls in
  match SESSION_RENDERS (record_calls calls initial_world) !! node_path with
  | None => mine = []
  | Some stats =>
      mine ≠ []
      ∧ (length (times stats) ≤ 10)%nat
      ∧ times stats = drop (length mine - 10) (mine.*1.*2)
      ∧ total_renders stats = Z.of_nat (length mine)
      ∧ frames_rendered stats = Z_sum (mine.*2)
      ∧ total_time stats = Qc_sum (mine.*1.*2)
  end.
Proof.
  cbv zeta. rewrite record_calls_lookup. unfold stats_after.
  case_decide as Hmine; [done|]. simpl. split; [done|].
  split; [|done]. rewrite length_drop, !length_fmap. lia.
Qed.

(** ** Total frames of a fresh state *)

Lemma py_int_ge_1 x : (1 ≤ x)%Qc → 1 ≤ py_int x.
Proof.
  intros Hx. unfold py_int.
  apply Z.quot_le_lower_bound; [done|].
  unfold Qcle, Qle in Hx. simpl in Hx. lia.
Qed.

(** C10.  When the trange parameter is absent, zero or fails to evaluate (or
    f1 or f2 cannot be evaluated), [get_sequence_range] returns (1, 1).
    Whenever the range it returns satisfies start ≤ end, the state built by
    [initialize_render_state] has total_frames at least 1; and a PostFrame
    event met by a tracked state with total_frames at least 1 is handled
    without raising, so its divisions by total_frames do not divide by zero. *)
Theorem total_frames_positive CHAT_ID host node :
  (falls_back node → get_sequence_range node = (Qc_of_Z 1, Qc_of_Z 1))
  ∧ (((get_sequence_range node).1 ≤ (get_sequence_range node).2)%Qc →
     ∀ w, ∃ w' st, initialize_render_state host node w = (w', Return st)
            ∧ 1 ≤ total_frames st)
  ∧ (∀ ft w st, CURRENT_RENDERS w !! path node = Some st → 1 ≤ total_frames st →
       ∃ w', on_PostFrame CHAT_ID host node ft w = (w', Return tt)).
Proof.
  split; [|split].
  - unfold falls_back, get_sequence_range.
    intros [->|[->|[->|[H1|H2]]]]; try done.
    + destruct (trange node) as [| |t]; try done. case_decide; [done|].
      destruct (f1 node) as [| |start]; try done. by destruct (H1 start).
    + destruct (trange node) as [| |t]; try done. case_decide; [done|].
      destruct (f1 node) as [| |start]; try done.
      destruct (f2 node) as [| |end_]; try done. by destruct (H2 end_).
  - intros Hle w.
    destruct (run_initialize_render_state host node w)
      as (st & Hrun & _ & _ & _ & HT & _).
    exists (tick (tick w)), st. split; [done|]. rewrite HT.
    apply py_int_ge_1. rewrite Z2Qc_inj_1.
    destruct (get_sequence_range node) as [start end_]. simpl in *.
    apply (Qcplus_le_mono_r _ _ (1 - start)) in Hle.
    replace (start + (1 - start))%Qc with 1%Qc in Hle by ring.
    by replace (end_ + (1 - start))%Qc with (end_ - start + 1)%Qc in Hle by ring.
  - intros ft w st E HT.
    rewrite (on_PostFrame_tracked CHAT_ID host node ft w st E). cbv zeta.
    case_decide; [|by eexists].
    edestruct (report_progress_run CHAT_ID host node) as (w' & Hrun & _);
      [| |by exists w'; apply Hrun].
    + simpl. lia.
    + apply size_add_pos.
Qed.

(** A node without a trange parameter: the range is (1, 1), one frame. *)
Lemma total_frames_positive_witness :
  let node := {| path := "/out/karma1"; name := Some "karma1";
                 type_name := Some "usdrender_rop";
                 trange := NoParm; f1 := NoParm; f2 := NoParm;
                 vm_picture := NoParm; references := [] |} in
  get_sequence_range node = (Qc_of_Z 1, Qc_of_Z 1)
  ∧ ∃ w' st, initialize_render_state demo_host node enabled_world = (w', Return st)
             ∧ 1 ≤ total_frames st.
Proof.
  cbv zeta. split.
  - apply (total_frames_positive demo_chat demo_host). by left.
  - apply (total_frames_positive demo_chat demo_host). by vm_compute.
Defined.

(** ** The preview sample *)

Lemma insert_unique_lt x l : Forall (lt x) l → insert_unique x l = x :: l.
Proof.
  destruct l as [|y l]; simpl; [done|]. intros [Hxy _]%Forall_cons.
  by rewrite (proj2 (Nat.ltb_lt x y) Hxy).
Qed.

(** [sorted(set(l))] is [l] itself when [l] is strictly increasing. *)
Lemma sorted_set_increasing l : StronglySorted lt l → sorted_set l = l.
Proof.
  induction 1 as [|x l Hl IH Hx]; [done|].
  unfold sorted_set in *. simpl. rewrite IH. by apply insert_unique_lt.
Qed.

Lemma py_range_1 a b : py_range a b 1 = seq a (b - a).
Proof.
  unfold py_range. replace ((b - a + 1 - 1) / 1)%nat with (b - a)%nat
    by (rewrite Nat.div_1_r; lia).
  replace (seq a (b - a)) with (seq (a + 0) (b - a)) by (f_equal; lia).
  rewrite <-(fmap_add_seq a 0 (b - a)). apply list_fmap_ext.
  intros i x _. lia.
Qed.

Lemma elem_of_py_range a b step x :
  (0 < step)%nat → x ∈ py_range a b step → (a ≤ x < b)%nat.
Proof.
  intros Hstep (i & -> & Hi)%list_elem_of_fmap.
  apply elem_of_seq in Hi as [_ Hi]. simpl in Hi.
  pose proof (Nat.Div0.mul_div_le (b - a + step - 1) step). nia.
Qed.

Lemma increasing_fmap_seq (f : nat → nat) s n :
  (∀ i j, (i < j)%nat → (f i < f j)%nat) → StronglySorted lt (f <$> seq s n).
Proof.
  intros Hf. revert s. induction n as [|n IH]; intros s; simpl; constructor; [done|].
  apply Forall_fmap, Forall_forall. intros j [Hj _]%elem_of_seq. apply Hf. lia.
Qed.

Lemma py_range_increasing a b step :
  (0 < step)%nat → StronglySorted lt (py_range a b step).
Proof. intros Hstep. apply increasing_fmap_seq. intros i j Hij. nia. Qed.

Lemma sample_indices_increasing n :
  (30 < n)%nat →
  sample_indices n
  = (seq 0 10 ++ py_range 10 (n - 10) ((n - 20) / 10)) ++ seq (n - 10) 10
  ∧ StronglySorted lt (sample_indices n)
  ∧ Forall (λ i, i < n)%nat (sample_indices n).
Proof.
  intros Hn.
  assert (0 < (n - 20) / 10)%nat as Hstep.
  { apply Nat.div_str_pos. lia. }
  assert (sample_indices n
          = (seq 0 10 ++ py_range 10 (n - 10) ((n - 20) / 10)) ++ seq (n - 10) 10) as ->.
  { unfold sample_indices. rewrite !py_range_1.
    by replace (n - (n - 10))%nat with 10%nat by lia. }
  split; [done|]. split.
  - apply StronglySorted_app_2.
    + intros x y Hx Hy. apply elem_of_seq in Hy.
      apply elem_of_app in Hx as [Hx|Hx];
        [apply elem_of_seq in Hx|apply elem_of_py_range in Hx; [|done]]; lia.
    + apply StronglySorted_app_2.
      * intros x y Hx Hy. apply elem_of_seq in Hx.
        apply elem_of_py_range in Hy; [|done]. lia.
      * rewrite <-(list_fmap_id (seq _ _)). apply increasing_fmap_seq. by intros.
      * by apply py_range_increasing.
    + rewrite <-(list_fmap_id (seq _ _)). apply increasing_fmap_seq. by intros.
  - rewrite !Forall_app. repeat split; apply Forall_forall.
    + intros x Hx%elem_of_seq. lia.
    + intros x Hx. apply elem_of_py_range in Hx; [|done]. lia.
    + intros x Hx%elem_of_seq. lia.
Qed.

(** Picking strictly increasing positions of a list gives a sublist. *)
Lemma pick_sublist {A} (l : list A) idx : ∀ k res,
  StronglySorted lt idx → Forall (le k) idx →
  Forall2 (λ i x, l !! i = Some x) idx res →
  res `sublist_of` drop k l.
Proof.
  induction idx as [|i idx IH]; intros k res Hs Hk HF.
  - apply Forall2_nil_inv_l in HF as ->. apply sublist_nil_l.
  - apply Forall2_cons_inv_l in HF as (x & res' & Hx & HF & ->).
    apply StronglySorted_cons in Hs as [Hlt Hs]. apply Forall_cons in Hk as [Hki _].
    assert (drop k l = take (i - k) (drop k l) ++ x :: drop (S i) l) as ->.
    { rewrite <-(take_drop (i - k) (drop k l)) at 1. f_equal.
      rewrite drop_drop. replace (k + (i - k))%nat with i by lia. by apply drop_S. }
    apply sublist_inserts_l, sublist_skip. apply IH; [done| |done].
    eapply Forall_impl; [exact Hlt|]. simpl. lia.
Qed.

(** Picking consecutive positions gives a segment. *)
Lemma pick_seq {A} (l : list A) k : ∀ a res,
  Forall2 (λ i x, l !! i = Some x) (seq a k) res → res = take k (drop a l).
Proof.
  induction k as [|k IH]; intros a res HF; simpl in HF.
  - apply Forall2_nil_inv_l in HF as ->. by rewrite take_0.
  - apply Forall2_cons_inv_l in HF as (x & res' & Hx & HF & ->).
    rewrite (drop_S _ _ _ Hx). simpl. f_equal. by apply IH.
Qed.

Lemma sample_frames_spec (frames : list string) :
  (30 < length frames)%nat →
  ∃ sampled, sample_frames frames = Some sampled
    ∧ take 10 frames `prefix_of` sampled
    ∧ drop (length frames - 10) frames `suffix_of` sampled
    ∧ sampled `sublist_of` frames.
Proof.
  intros Hn. destruct (sample_indices_increasing _ Hn) as (Hidx & Hsorted & Hbound).
  unfold sample_frames. rewrite sorted_set_increasing by done.
  destruct (mapM_is_Some_2 (λ i, frames !! i) (sample_indices (length frames)))
    as [sampled Hsampled].
  { eapply Forall_impl; [exact Hbound|]. intros i Hi. by apply lookup_lt_is_Some. }
  exists sampled. split; [done|].
  apply mapM_Some_1 in Hsampled.
  pose proof (pick_sublist frames _ 0%nat sampled Hsorted) as Hsub.
  rewrite drop_0 in Hsub.
  split; [|split; [|apply Hsub; [|done]; apply Forall_forall; intros; lia]].
  - rewrite Hidx in Hsampled.
    apply Forall2_app_inv_l in Hsampled as (r12 & r3 & H12 & _ & ->).
    apply Forall2_app_inv_l in H12 as (r1 & r2 & H1 & _ & ->).
    apply pick_seq in H1 as ->. rewrite drop_0.
    by apply prefix_app_r, prefix_app_r.
  - rewrite Hidx in Hsampled.
    apply Forall2_app_inv_l in Hsampled as (r12 & r3 & _ & H3 & ->).
    apply pick_seq in H3 as ->.
    rewrite take_ge by (rewrite length_drop; lia).
    by apply suffix_app_r.
Qed.

(** ** Preview media *)

Lemma io_bind_val {A B} P (R : A → Prop) (c : M A) (f : A → M B) :
  io P c → (∀ w a, (c w).2 = Return a → R a) → (∀ a, R a → io P (f a)) →
  io P (c ≫= f).
Proof.
  intros Hc HR Hf w. rewrite bind_run. specialize (Hc w). specialize (HR w).
  destruct (c w) as [w1 [a|e]]; simpl in *; [|done].
  eapply io_step_trans; [done|]. by apply Hf, HR.
Qed.

Lemma posts_in_bind_l {A B} P e (c : M A) (f : A → M B) :
  posts_in e c → io P c → (∀ a, io P (f a)) → posts_in e (c ≫= f).
Proof.
  intros He Hc Hf w. rewrite bind_run. specialize (He w). specialize (Hc w).
  destruct (c w) as [w1 [a|x]]; simpl in *; [|done].
  eapply elem_of_new_effects_l; [apply Hc|apply (Hf a w1)|done].
Qed.

Lemma posts_in_bind_r {A B} P (R : A → Prop) e (c : M A) (f : A → M B) :
  io P c → (∀ w, ∃ a, (c w).2 = Return a ∧ R a) →
  (∀ a, R a → posts_in e (f a)) → (∀ a, io P (f a)) → posts_in e (c ≫= f).
Proof.
  intros Hc Hr He Hf w. rewrite bind_run. specialize (Hc w).
  destruct (Hr w) as (a & Ha & HR).
  destruct (c w) as [w1 r]; simpl in *; subst r.
  eapply elem_of_new_effects_r; [apply Hc|apply (Hf a w1)|by apply He].
Qed.

Lemma posts_in_try_except {A} P e (body : M A) handler :
  posts_in e body → io P body → (∀ x, io P (handler x)) →
  posts_in e (try_except body handler).
Proof.
  intros He Hb Hh w. unfold try_except. specialize (He w). specialize (Hb w).
  destruct (body w) as [w1 [a|x]]; simpl in *; [done|].
  eapply elem_of_new_effects_l; [apply Hb|apply (Hh x w1)|done].
Qed.

(** Discharges [io P c] for a computation built from logging, posting,
    binds, branches and try/except. *)
Ltac io_solve :=
  repeat first
    [ apply io_mret | apply io_raise
    | apply io_log_message; done
    | apply io_requests_post; done
    | apply io_bind; [|intros]
    | apply io_try_except; [|intros]
    | match goal with |- io _ (match ?x with _ => _ end) => destruct x end ].

Section Preview.
Variable CHAT_ID : ChatId.
Variable host : Host.

Lemma posts_in_requests_post r : posts_in (Post r) (requests_post host r).
Proof.
  intros w. unfold requests_post.
  destruct (http host (posts w)); simpl; (eapply elem_of_new_effects; [done|set_solver]).
Qed.

Lemma log_message_returns line w : ∃ a, (log_message line w).2 = Return a ∧ True.
Proof. by exists tt. Qed.

Lemma collect_images_returns frames w :
  (collect_images host frames w).2
  = Return (filter (λ f, convert host f = Converted) frames).
Proof.
  revert w. induction frames as [|f frames IH]; intros w; [done|].
  simpl. destruct (convert host f) eqn:Hf.
  - rewrite filter_cons_True by done. rewrite bind_run.
    specialize (IH w). destruct (collect_images host frames w) as [w1 r].
    simpl in IH. by subst r.
  - rewrite filter_cons_False by congruence. rewrite bind_run. simpl. apply IH.
  - rewrite filter_cons_False by congruence. rewrite bind_run. simpl. apply IH.
Qed.


Lemma io_collect_images_logs (P : Effect → Prop) frames :
  (∀ line, P (Log line)) → io P (collect_images host frames).
Proof.
  intros HP. induction frames as [|f frames IH]; simpl; [apply io_mret|].
  destruct (convert host f).
  - apply io_bind; [done|]. intros. apply io_mret.
  - apply io_bind; [by apply io_log_message|]. done.
  - apply io_bind; [by apply io_log_message|]. done.
Qed.


End Preview.






(** * Further properties of the module *)

(** ** format_time *)

Lemma Qfloor_Q2Qc q : Qfloor (Q2Qc q) = Qfloor q.
Proof. simpl. apply Qfloor_comp, Qred_correct. Qed.

(** Floor of a quotient by a positive integer. *)
Lemma py_floordiv_pos (x : Qc) (p : positive) :
  py_floordiv x (Qc_of_Z (Z.pos p)) = Qfloor x / Z.pos p.
Proof.
  unfold py_floordiv, Qcdiv, Qcmult, Qcinv.
  rewrite Qfloor_Q2Qc.
  transitivity (Qfloor (x * / inject_Z (Z.pos p))).
  { apply Qfloor_comp. apply Qmult_comp; [reflexivity|]. simpl.
    apply Qred_correct. }
  destruct x as [[n d] Hc]. simpl. unfold Qfloor, Qmult, Qinv. simpl.
  rewrite Z.mul_1_r, Pos2Z.inj_mul.
  rewrite Z.div_div by lia. done.
Qed.

(** Floor after subtracting an integer. *)
Lemma Qfloor_sub_Z (x : Qc) (z : Z) : Qfloor (x - Qc_of_Z z)%Qc = Qfloor x - z.
Proof.
  unfold Qcminus, Qcplus, Qcopp. rewrite Qfloor_Q2Qc.
  transitivity (Qfloor (x + - inject_Z z)).
  { apply Qfloor_comp. apply Qplus_comp; [reflexivity|]. simpl.
    apply Qred_correct. }
  destruct x as [[n d] Hc]. simpl. unfold Qfloor, Qplus, Qopp. simpl.
  rewrite Z.mul_1_r, Pos.mul_1_r.
  replace (n + - z * Z.pos d) with (n + (- z) * Z.pos d) by lia.
  rewrite Z.div_add by lia. lia.
Qed.

Lemma Qfloor_py_mod (x : Qc) (p : positive) :
  Qfloor (py_mod x (Qc_of_Z (Z.pos p))) = Qfloor x mod Z.pos p.
Proof.
  unfold py_mod. rewrite <-Z2Qc_inj_mul, Qfloor_sub_Z, py_floordiv_pos.
  rewrite Z.mod_eq by lia. done.
Qed.

(** [int] and floor agree where the floor is not negative. *)
Lemma py_int_floor (x : Qc) : 0 ≤ Qfloor x → py_int x = Qfloor x.
Proof.
  destruct x as [[n d] Hc]. unfold py_int, Qfloor. simpl. intros Hn.
  assert (0 ≤ n).
  { destruct (decide (0 ≤ n)); [done|].
    assert (n / Z.pos d < 0); [|lia]. apply Z.div_lt_upper_bound; lia. }
  apply Z.quot_div_nonneg; lia.
Qed.

Lemma Qfloor_nonneg (x : Qc) : (0 ≤ x)%Qc → 0 ≤ Qfloor x.
Proof.
  intros Hx. change 0 with (Qfloor (inject_Z 0)).
  by apply Qfloor_resp_le.
Qed.

(** X1.  For a duration that is not negative, [format_time] splits the whole
    seconds into hours, minutes (below 60) and seconds (below 60) that add up
    to the floor of the duration; it shows hours only when there is at least
    one, and minutes only when there is at least one or hours are shown. *)
Theorem format_time_decomposes (seconds : Qc) :
  (0 ≤ seconds)%Qc →
  let n := Qfloor seconds in
  match format_time seconds with
  | Hms h m s => 0 < h ∧ 0 ≤ m < 60 ∧ 0 ≤ s < 60 ∧ h * 3600 + m * 60 + s = n
  | Ms m s => 0 < m < 60 ∧ 0 ≤ s < 60 ∧ m * 60 + s = n
  | Secs s => 0 ≤ s < 60 ∧ s = n
  end.
Proof.
  intros Hs. cbv zeta. pose proof (Qfloor_nonneg _ Hs) as Hn.
  unfold format_time.
  rewrite !py_floordiv_pos, Qfloor_py_mod.
  rewrite py_int_floor; rewrite Qfloor_py_mod; [|by apply Z.mod_pos_bound].
  set (n := Qfloor seconds) in *.
  pose proof (Z.mod_pos_bound n 60 eq_refl).
  pose proof (Z.mod_pos_bound n 3600 eq_refl).
  pose proof (Z.div_mod n 3600 ltac:(lia)).
  pose proof (Z.div_mod (n mod 3600) 60 ltac:(lia)).
  assert (n mod 3600 mod 60 = n mod 60) as Hmm.
  { apply Z.mod_mod_divide. by exists 60. }
  assert (0 ≤ n mod 3600 / 60 < 60).
  { split; [apply Z.div_pos; lia|apply Z.div_lt_upper_bound; lia]. }
  repeat case_decide.
  - lia.
  - assert (n / 3600 = 0) by (pose proof (Z.div_pos n 3600); lia). lia.
  - assert (n / 3600 = 0) by (pose proof (Z.div_pos n 3600); lia). lia.
Qed.

(** One hour, two minutes and five and a half seconds. *)
Lemma format_time_decomposes_witness :
  match format_time (Q2Qc (7451 # 2)) with
  | Hms h m s => 0 < h ∧ 0 ≤ m < 60 ∧ 0 ≤ s < 60 ∧ h * 3600 + m * 60 + s = 3725
  | Ms m s => 0 < m < 60 ∧ 0 ≤ s < 60 ∧ m * 60 + s = 3725
  | Secs s => 0 ≤ s < 60 ∧ s = 3725
  end.
Proof. apply (format_time_decomposes (Q2Qc (7451 # 2))). by vm_compute. Defined.

(** ** get_progress_bar *)

Lemma Qfloor_Qc_of_Z z : Qfloor (Qc_of_Z z) = z.
Proof. apply Qfloor_Z. Qed.

Lemma py_round_ge (x : Qc) (c : Z) : (Qc_of_Z c ≤ x)%Qc → c ≤ py_round x.
Proof.
  intros Hx. assert (c ≤ Qfloor x).
  { rewrite <-(Qfloor_Qc_of_Z c). by apply Qfloor_resp_le. }
  unfold py_round. repeat case_decide; try case_match; lia.
Qed.

Lemma py_round_le (x : Qc) (c : Z) : (x ≤ Qc_of_Z c)%Qc → py_round x ≤ c.
Proof.
  intros Hx. assert (Qfloor x ≤ c) as Hf.
  { rewrite <-(Qfloor_Qc_of_Z c). by apply Qfloor_resp_le. }
  destruct (decide (Qfloor x = c)) as [Heq|Hne].
  - unfold py_round. rewrite Heq. rewrite decide_True; [lia|].
    apply Qcle_lt_trans with 0%Qc; [|by vm_compute].
    apply (Qcplus_le_mono_r _ _ (Qc_of_Z c)).
    by replace (x - Qc_of_Z c + Qc_of_Z c)%Qc with x by ring; rewrite Qcplus_0_l.
  - unfold py_round. repeat case_decide; try case_match; lia.
Qed.

(** X2.  For a progress that is not negative the bar has as many cells as
    the larger of 10 and round(10 × progress), the filled ones first; for a
    progress between 0 and 1 that is exactly 10 cells, of which
    round(10 × progress) are filled. *)
Theorem progress_bar_cells (progress : Qc) :
  (0 ≤ progress)%Qc →
  let filled := py_round (Qc_of_Z 10 * progress)%Qc in
  0 ≤ filled
  ∧ get_progress_bar progress
    = replicate (Z.to_nat filled) true ++ replicate (Z.to_nat (10 - filled)) false
  ∧ length (get_progress_bar progress) = Z.to_nat (Z.max 10 filled)
  ∧ ((progress ≤ 1)%Qc → filled ≤ 10 ∧ length (get_progress_bar progress) = 10%nat).
Proof.
  intros Hp. cbv zeta.
  assert (0 ≤ py_round (Qc_of_Z 10 * progress)%Qc) as Hlo.
  { apply py_round_ge. rewrite Z2Qc_inj_0.
    rewrite <-(Qcmult_0_r (Qc_of_Z 10)). by apply Qcmult_le_mono_nonneg_l. }
  split; [done|]. split; [done|].
  unfold get_progress_bar. rewrite length_app, !length_replicate.
  split; [lia|]. intros Hp1.
  assert (py_round (Qc_of_Z 10 * progress)%Qc ≤ 10) as Hhi.
  { apply py_round_le. rewrite <-(Qcmult_1_r (Qc_of_Z 10)) at 2.
    by apply Qcmult_le_mono_nonneg_l. }
  split; [done|lia].
Qed.

(** Three frames of four. *)
Lemma progress_bar_cells_witness :
  length (get_progress_bar (Q2Qc (3 # 4))) = 10%nat.
Proof.
  apply (progress_bar_cells (Q2Qc (3 # 4))); by vm_compute.
Defined.

(** ** send_telegram_message *)

Section Sending.
Variable host : Host.

Lemma run_send_to_chat chat m w :
  ∃ w', send_to_chat host chat m w = (w', Return (accepted (http host (posts w))))
    ∧ posts w' = S (posts w)
    ∧ outbox w `prefix_of` outbox w'
    ∧ requests (new_effects w w') = [sendMessage chat m].
Proof.
  unfold send_to_chat, try_except. rewrite bind_run. unfold requests_post.
  destruct (http host (posts w)) as [[] [mid|]|]; simpl;
    (eexists; split; [reflexivity|]; split; [done|]; simpl; split;
     [try rewrite <-(assoc_L (++)); by apply prefix_app_r|];
     erewrite new_effects_app; [|simpl; try rewrite <-(assoc_L (++)); reflexivity]; done).
Qed.

Lemma requests_app l1 l2 : requests (l1 ++ l2) = requests l1 ++ requests l2.
Proof. apply omap_app. Qed.

Lemma run_send_to_chats m : ∀ ids w,
  ∃ w' r, send_to_chats host ids m w = (w', Return r)
    ∧ outbox w `prefix_of` outbox w'
    ∧ match r with
      | Some mid =>
          ∃ k, (k < length ids)%nat
            ∧ accepted (http host (posts w + k)) = Some mid
            ∧ (∀ j, (j < k)%nat → accepted (http host (posts w + j)) = None)
            ∧ requests (new_effects w w') = (λ c, sendMessage c m) <$> take (S k) ids
      | None =>
          (∀ j, (j < length ids)%nat → accepted (http host (posts w + j)) = None)
          ∧ requests (new_effects w w') = (λ c, sendMessage c m) <$> ids
      end.
Proof.
  induction ids as [|chat ids IH]; intros w.
  - exists w, None. split; [done|]. split; [done|]. split; [intros; simpl in *; lia|].
    by rewrite new_effects_same.
  - simpl. rewrite bind_run.
    destruct (run_send_to_chat chat m w) as (w1 & -> & Hposts & Hpre & Hreq).
    destruct (accepted (http host (posts w))) as [mid|] eqn:Hacc.
    + exists w1, (Some mid). split; [done|]. split; [done|].
      exists 0%nat. rewrite Nat.add_0_r. split; [simpl; lia|]. split; [done|].
      split; [intros; lia|]. by rewrite take_0.
    + destruct (IH w1) as (w2 & r & -> & Hpre2 & Hr).
      exists w2, r. split; [done|]. split; [by etrans|].
      rewrite (new_effects_trans w w1 w2), requests_app, Hreq by done.
      destruct r as [mid|].
      * destruct Hr as (k & Hk & Hacck & Hbefore & Hreqs).
        exists (S k). rewrite Hposts in *.
        split; [simpl; lia|].
        split; [by replace (posts w + S k)%nat with (S (posts w) + k)%nat by lia|].
        split.
        -- intros [|j] Hj; [by rewrite Nat.add_0_r|].
           replace (posts w + S j)%nat with (S (posts w) + j)%nat by lia.
           apply Hbefore. lia.
        -- by rewrite Hreqs.
      * destruct Hr as [Hall Hreqs]. rewrite Hposts in *. split.
        -- intros [|j] Hj; [by rewrite Nat.add_0_r|].
           replace (posts w + S j)%nat with (S (posts w) + j)%nat by lia.
           apply Hall. simpl in Hj. lia.
        -- by rewrite Hreqs.
Qed.

End Sending.

(** X3.  With a list of chats, [send_telegram_message] posts the message to
    the chats in order and stops at the first one whose response is ok and
    carries a message id: it returns that id and the later chats are never
    posted to.  It returns None only after posting to every chat without such
    a response; it never raises. *)
Theorem send_telegram_message_first_accepted host ids m w :
  ∃ w' r, send_telegram_message (ChatList ids) host m w = (w', Return r)
    ∧ match r with
      | Some mid =>
          ∃ k, (k < length ids)%nat
            ∧ accepted (http host (posts w + k)) = Some mid
            ∧ (∀ j, (j < k)%nat → accepted (http host (posts w + j)) = None)
            ∧ requests (new_effects w w') = (λ c, sendMessage c m) <$> take (S k) ids
      | None =>
          (∀ j, (j < length ids)%nat → accepted (http host (posts w + j)) = None)
          ∧ requests (new_effects w w') = (λ c, sendMessage c m) <$> ids
      end.
Proof.
  destruct (run_send_to_chats host m ids w) as (w' & r & Hrun & _ & Hr).
  by exists w', r.
Qed.

(** ** An interrupted render without a tracked message *)

(** X4.  When a PostRender event finds some but not all frames completed and
    the state holds no message id (the start message could not be sent), the
    handler posts and logs nothing at all: the interruption goes unreported,
    and the entry is removed. *)
Theorem interrupted_without_message_id_silent CHAT_ID host node ft w st :
  NOTIFICATIONS_ENABLED w = true →
  CURRENT_RENDERS w !! path node = Some st →
  truthy (message_id st) = None →
  0 < Z.of_nat (size (completed_frames st)) < total_frames st →
  let w' := handle CHAT_ID host w
              {| ev_node := node; ev_type := PostRender; ev_frame := ft |} in
  outbox w' = outbox w
  ∧ CURRENT_RENDERS w' = delete (path node) (CURRENT_RENDERS w)
  ∧ SESSION_RENDERS w' = SESSION_RENDERS w.
Proof.
  intros Hen E Hmid Hn. cbv zeta. unfold handle. cbn [ev_node ev_type ev_frame].
  destruct (on_render_event_PostRender CHAT_ID host node ft w st Hen E)
    as (w1 & Hrun & ->).
  unfold report_outcome in Hrun. rewrite decide_True in Hrun by done.
  rewrite bind_run, run_py_div in Hrun by (intros ?%Qc_of_Z_eq_0; lia).
  cbv beta iota in Hrun. rewrite Hmid, run_mret in Hrun.
  injection Hrun as <-. done.
Qed.

(** The chat service was unreachable when the render of frames 1..2 started;
    the render is stopped after frame 1. *)
Lemma interrupted_without_message_id_silent_witness :
  outbox (handle demo_chat offline_host world_offline_one_of_two
            (event mantra_1_2 PostRender 0))
  = outbox world_offline_one_of_two.
Proof.
  assert (∃ st, CURRENT_RENDERS world_offline_one_of_two !! path mantra_1_2 = Some st
                ∧ truthy (message_id st) = None
                ∧ 0 < Z.of_nat (size (completed_frames st)) < total_frames st)
    as (st & Hst & Hmid & Hn).
  { eexists. split; [vm_compute; reflexivity|]. split; by vm_compute. }
  apply (interrupted_without_message_id_silent demo_chat offline_host mantra_1_2
           (Qc_of_Z 0) world_offline_one_of_two st eq_refl Hst Hmid Hn).
Defined.

(** ** Reading the statistics back *)

Lemma last_record_render t n s : last (times (record_render t n s)) = Some t.
Proof.
  unfold record_render; simpl. case_decide as Hlen; [|apply last_snoc].
  rewrite length_app in Hlen; simpl in Hlen.
  destruct (times s) as [|x l]; [simpl in Hlen; lia|]. simpl. rewrite drop_0.
  apply last_snoc.
Qed.

(** [get_render_stats] only reads the entry of its path. *)
Lemma get_render_stats_reads q w w' :
  SESSION_RENDERS w !! q = SESSION_RENDERS w' !! q →
  (get_render_stats q w).1 = w
  ∧ (get_render_stats q w).2 = (get_render_stats q w').2.
Proof.
  intros Hq. unfold get_render_stats. rewrite !bind_run, !run_get_world.
  cbv beta iota. rewrite <-Hq.
  destruct (SESSION_RENDERS w !! q) as [stats|]; [|done].
  destruct (times stats); [done|].
  rewrite !bind_run. case_decide.
  - rewrite !run_py_div by (intros ?%Qc_of_Z_eq_0; lia). done.
  - done.
Qed.

(** X5.  Right after [update_render_stats] for a path, [get_render_stats] of
    that path reports the render just recorded as the last render, one more
    render than before, and as average the accumulated time per accumulated
    frame (zero when no frame was ever counted); it leaves the world as it is,
    and what it reports for any other path is what it reported before. *)
Theorem render_stats_read_back (node_path : string) (render_time : Qc) (frame_count : Z)
    (w : World) :
  let w1 := (update_render_stats node_path render_time frame_count w).1 in
  let old := default empty_stats (SESSION_RENDERS w !! node_path) in
  let frames := frames_rendered old + frame_count in
  let time := (total_time old + render_time)%Qc in
  get_render_stats node_path w1
  = (w1, Return (Some {|
       average := format_time (if decide (0 < frames)
                               then (time / Qc_of_Z frames)%Qc else 0%Qc);
       view_total_renders := total_renders old + 1;
       last_render := Some (format_time render_time) |}))
  ∧ ∀ other, other ≠ node_path →
      get_render_stats other w1 = (w1, (get_render_stats other w).2).
Proof.
  cbv zeta. split.
  - unfold get_render_stats. rewrite bind_run, run_get_world. cbv beta iota.
    rewrite update_render_stats_lookup, decide_True by done.
    set (old := default empty_stats _). set (s := record_render _ _ old).
    pose proof (times_record_render render_time frame_count old) as Hne.
    pose proof (last_record_render render_time frame_count old) as Hlast.
    fold s in Hne, Hlast.
    destruct (times s) as [|x l] eqn:Et; [done|].
    rewrite bind_run. change (frames_rendered s) with (frames_rendered old + frame_count).
    change (total_time s) with (total_time old + render_time)%Qc.
    change (total_renders s) with (total_renders old + 1).
    case_decide.
    + rewrite run_py_div by (intros ?%Qc_of_Z_eq_0; lia). cbv beta iota.
      rewrite run_mret. by rewrite Hlast.
    + cbv beta iota. rewrite !run_mret. by rewrite Hlast.
  - intros other Hne.
    destruct (get_render_stats_reads other
                (update_render_stats node_path render_time frame_count w).1 w) as [H1 H2].
    { by rewrite update_render_stats_lookup, decide_False. }
    destruct (get_render_stats other _) as [w2 r] eqn:Hrun in *. simpl in *.
    by subst.
Qed.

(** ** Renders of other nodes, finished renders, renders ended while disabled *)

Section Isolation.
Variable CHAT_ID : ChatId.
Variable host : Host.

Lemma handle_other_path w e p :
  path (ev_node e) ≠ p →
  CURRENT_RENDERS (handle CHAT_ID host w e) !! p = CURRENT_RENDERS w !! p.
Proof.
  intros Hne.
  destruct (NOTIFICATIONS_ENABLED w) eqn:Hen; [|by rewrite handle_disabled].
  destruct e as [node ev ft]. cbn [ev_node] in Hne.
  destruct (CURRENT_RENDERS w !! path node) as [st|] eqn:E.
  - destruct ev.
    + unfold handle. cbn [ev_node ev_type ev_frame].
      by erewrite handle_PreRender_tracked.
    + destruct (handle_PostFrame_tracked CHAT_ID host w node ft st Hen E)
        as [_ [[_ ->]|[t ->]]].
      * by apply lookup_delete_ne.
      * by apply lookup_insert_ne.
    + destruct (handle_PostRender_tracked CHAT_ID host w node ft st Hen E) as [_ ->].
      by apply lookup_delete_ne.
    + unfold handle. cbn [ev_node ev_type ev_frame].
      by rewrite on_render_event_enabled.
  - destruct (decide (ev = PreRender)) as [->|Hev].
    + destruct (handle_PreRender_fresh CHAT_ID host w node ft Hen E)
        as (st & m & _ & -> & _).
      by apply lookup_insert_ne.
    + by rewrite handle_untracked.
Qed.

End Isolation.

(** X6.  The render state of a node is untouched by any run of events of
    other nodes: renders are tracked independently, keyed by node path. *)
Theorem other_nodes_leave_state CHAT_ID host (node_path : string) evs : ∀ w,
  Forall (λ e, path (ev_node e) ≠ node_path) evs →
  CURRENT_RENDERS (run CHAT_ID host w evs) !! node_path
  = CURRENT_RENDERS w !! node_path.
Proof.
  induction evs as [|e evs IH]; intros w Hevs; [done|].
  apply Forall_cons in Hevs as [He Hevs]. simpl.
  rewrite IH by done. by apply handle_other_path.
Qed.

(** A whole render of a Karma node leaves the Mantra render of frames 1..2
    where it was. *)
Lemma other_nodes_leave_state_witness :
  let karma := {| path := "/stage/karma1"; name := Some "karma1";
                  type_name := Some "usdrender_rop";
                  trange := NoParm; f1 := NoParm; f2 := NoParm;
                  vm_picture := NoParm; references := [] |} in
  CURRENT_RENDERS (run demo_chat demo_host world_one_of_two
                     [event karma PreRender 0; event karma PostFrame 1;
                      event karma PostRender 0]) !! path mantra_1_2
  = CURRENT_RENDERS world_one_of_two !! path mantra_1_2.
Proof.
  cbv zeta. apply other_nodes_leave_state. by repeat constructor.
Defined.

(** X7.  Once a PostRender event of a node has been delivered, any further
    PostFrame or PostRender event of that node changes nothing (no state, no
    message, no log line) until its next PreRender. *)
Theorem events_after_PostRender_ignored CHAT_ID host node ft ft' ev' w :
  ev' ≠ PreRender →
  let w1 := handle CHAT_ID host w
              {| ev_node := node; ev_type := PostRender; ev_frame := ft |} in
  NOTIFICATIONS_ENABLED w = true →
  CURRENT_RENDERS w1 !! path node = None
  ∧ handle CHAT_ID host w1 {| ev_node := node; ev_type := ev'; ev_frame := ft' |} = w1.
Proof.
  intros Hev w1 Hen.
  assert (CURRENT_RENDERS w1 !! path node = None) as Hnone.
  { subst w1. destruct (CURRENT_RENDERS w !! path node) as [st|] eqn:E.
    - destruct (handle_PostRender_tracked CHAT_ID host w node ft st Hen E) as [_ ->].
      apply lookup_delete_eq.
    - by rewrite handle_untracked. }
  split; [done|]. by apply handle_untracked.
Qed.

(** A late frame after the render of frames 1..2 was stopped. *)
Lemma events_after_PostRender_ignored_witness :
  handle demo_chat demo_host
    (handle demo_chat demo_host world_one_of_two
       {| ev_node := mantra_1_2; ev_type := PostRender; ev_frame := Qc_of_Z 0 |})
    {| ev_node := mantra_1_2; ev_type := PostFrame; ev_frame := Qc_of_Z 2 |}
  = handle demo_chat demo_host world_one_of_two
      {| ev_node := mantra_1_2; ev_type := PostRender; ev_frame := Qc_of_Z 0 |}.
Proof.
  apply (events_after_PostRender_ignored demo_chat demo_host mantra_1_2
           (Qc_of_Z 0) (Qc_of_Z 2) PostFrame world_one_of_two); done.
Defined.

(** X8.  A render that ends while notifications are disabled leaves its state
    behind: the PostRender event changes nothing, and after notifications are
    enabled again the next PreRender of the node is ignored (no new state, no
    start message), so the next render continues on the old state. *)
Theorem render_ended_while_disabled CHAT_ID host node ft ft' w st :
  NOTIFICATIONS_ENABLED w = true →
  CURRENT_RENDERS w !! path node = Some st →
  let w1 := toggle_notifications w in
  let w2 := handle CHAT_ID host w1
              {| ev_node := node; ev_type := PostRender; ev_frame := ft |} in
  let w3 := toggle_notifications w2 in
  w2 = w1
  ∧ NOTIFICATIONS_ENABLED w3 = true
  ∧ CURRENT_RENDERS w3 !! path node = Some st
  ∧ handle CHAT_ID host w3 {| ev_node := node; ev_type := PreRender; ev_frame := ft' |}
    = w3.
Proof.
  intros Hen E. cbv zeta.
  assert (handle CHAT_ID host (toggle_notifications w)
            {| ev_node := node; ev_type := PostRender; ev_frame := ft |}
          = toggle_notifications w) as ->.
  { apply handle_disabled. simpl. by rewrite Hen. }
  split; [done|]. simpl. rewrite Hen. split; [done|]. split; [done|].
  unfold handle. cbn [ev_node ev_type ev_frame].
  by erewrite handle_PreRender_tracked.
Qed.

(** Notifications are switched off and on again around the end of the render
    of frames 1..2. *)
Lemma render_ended_while_disabled_witness :
  let w3 := toggle_notifications
              (handle demo_chat demo_host (toggle_notifications world_one_of_two)
                 (event mantra_1_2 PostRender 0)) in
  handle demo_chat demo_host w3 (event mantra_1_2 PreRender 0) = w3.
Proof.
  assert (∃ st, CURRENT_RENDERS world_one_of_two !! path mantra_1_2 = Some st) as [st Hst].
  { eexists. vm_compute. reflexivity. }
  apply (render_ended_while_disabled demo_chat demo_host mantra_1_2 (Qc_of_Z 0)
           (Qc_of_Z 0) world_one_of_two st eq_refl Hst).
Defined.

(** ** Which events change the session statistics *)

Lemma keeps_session_mret {A} (a : A) : keeps_session (mret a).
Proof. done. Qed.

Lemma keeps_session_raise {A} e : keeps_session (raise (A:=A) e).
Proof. done. Qed.

Lemma keeps_session_bind {A B} (c : M A) (f : A → M B) :
  keeps_session c → (∀ a, keeps_session (f a)) → keeps_session (c ≫= f).
Proof.
  intros Hc Hf w. rewrite bind_run. specialize (Hc w).
  destruct (c w) as [w1 [a|e]]; simpl in *; [|done].
  by rewrite Hf.
Qed.

Lemma keeps_session_try_except {A} (body : M A) handler :
  keeps_session body → (∀ e, keeps_session (handler e)) →
  keeps_session (try_except body handler).
Proof.
  intros Hb Hh w. unfold try_except. specialize (Hb w).
  destruct (body w) as [w1 [a|e]]; simpl in *; [done|].
  by rewrite Hh.
Qed.

Section Session.
Variable CHAT_ID : ChatId.
Variable host : Host.

Lemma keeps_session_requests_post r : keeps_session (requests_post host r).
Proof. intros w. unfold requests_post. by destruct (http host (posts w)). Qed.

(** Discharges [keeps_session c] for a computation built from the clock,
    logging, posting, divisions, binds, branches and try/except. *)
Ltac ks_solve :=
  repeat first
    [ apply keeps_session_mret | apply keeps_session_raise
    | apply keeps_session_requests_post
    | apply keeps_session_bind; [|intros]
    | apply keeps_session_try_except; [|intros]
    | match goal with |- keeps_session (match ?x with _ => _ end) => destruct x end
    | done ].

Lemma keeps_session_send_to_chats ids m : keeps_session (send_to_chats host ids m).
Proof.
  induction ids as [|chat ids IH]; simpl; [done|].
  apply keeps_session_bind; [unfold send_to_chat; ks_solve|].
  intros [mid|]; [done|apply IH].
Qed.

Lemma keeps_session_send_telegram_message m :
  keeps_session (send_telegram_message CHAT_ID host m).
Proof.
  unfold send_telegram_message. destruct CHAT_ID.
  - apply keeps_session_send_to_chats.
  - unfold send_to_chat. ks_solve.
Qed.

Lemma keeps_session_edit_or_send mid m : keeps_session (edit_or_send CHAT_ID host mid m).
Proof.
  unfold edit_or_send. apply keeps_session_try_except; [ks_solve|].
  intros e. apply keeps_session_bind; [apply keeps_session_send_telegram_message|done].
Qed.

Lemma keeps_session_collect_images frames : keeps_session (collect_images host frames).
Proof.
  induction frames as [|f frames IH]; simpl; [done|].
  destruct (convert host f); apply keeps_session_bind; done.
Qed.

Lemma keeps_session_send_preview node : keeps_session (send_preview CHAT_ID host node).
Proof.
  unfold send_preview. apply keeps_session_try_except; [|done].
  apply keeps_session_bind; [unfold output_path_of; ks_solve|]. intros output_path.
  apply keeps_session_bind; [done|]. intros _.
  apply keeps_session_bind; [|intros []; done].
  unfold send_telegram_animation.
  destruct (sorted _) as [|f1 [|f2 frames]]; [ks_solve|ks_solve|].
  apply keeps_session_try_except; [|ks_solve].
  apply keeps_session_bind; [ks_solve|]. intros sampled.
  apply keeps_session_bind; [done|]. intros _.
  apply keeps_session_bind; [apply keeps_session_collect_images|].
  intros [|img images]; ks_solve.
Qed.

Lemma keeps_session_get_render_stats p : keeps_session (get_render_stats p).
Proof. intros w. by destruct (get_render_stats_reads p w w eq_refl) as [-> _]. Qed.

Lemma keeps_session_except node e :
  keeps_session (on_render_event_except CHAT_ID host node e).
Proof.
  unfold on_render_event_except.
  apply keeps_session_bind; [apply keeps_session_send_telegram_message|]. intros _. ks_solve.
Qed.

Lemma keeps_session_report_progress node st :
  keeps_session (report_progress CHAT_ID host node st).
Proof. unfold report_progress, py_div. ks_solve. Qed.

Lemma keeps_session_on_PreRender node : keeps_session (on_PreRender CHAT_ID host node).
Proof.
  unfold on_PreRender. apply keeps_session_bind; [done|]. intros w0.
  destruct (CURRENT_RENDERS w0 !! path node); [done|].
  apply keeps_session_bind; [unfold initialize_render_state; ks_solve|]. intros st.
  apply keeps_session_bind; [done|]. intros _.
  apply keeps_session_bind; [apply keeps_session_send_telegram_message|]. intros msg_id.
  ks_solve.
Qed.

Lemma keeps_session_on_PostFrame node ft : keeps_session (on_PostFrame CHAT_ID host node ft).
Proof.
  unfold on_PostFrame. apply keeps_session_bind; [done|]. intros w0.
  destruct (CURRENT_RENDERS w0 !! path node); [|done].
  apply keeps_session_bind; [done|]. intros _.
  apply keeps_session_bind; [unfold should_update_progress; ks_solve|].
  intros [update st]. apply keeps_session_bind; [done|]. intros _.
  destruct update; [apply keeps_session_report_progress|done].
Qed.

(** The two branches of the PostRender report that do not record a render. *)
Lemma report_outcome_keeps_session node st d w :
  Z.of_nat (size (completed_frames st)) ≠ total_frames st →
  SESSION_RENDERS (report_outcome CHAT_ID host node st d w).1 = SESSION_RENDERS w.
Proof.
  intros Hne. unfold report_outcome.
  case_decide; [|rewrite decide_False by done].
  - revert w. change (keeps_session
      (fraction ← py_div (Qc_of_Z (Z.of_nat (size (completed_frames st))))
                    (Qc_of_Z (total_frames st));
       match truthy (message_id st) with
       | Some mid =>
           edit_or_send CHAT_ID host mid
             (RenderInterrupted (get_render_engine node) (get_node_name node)
                (size (completed_frames st)) (total_frames st)
                (fraction * Qc_of_Z 100)%Qc (format_time d)
                (last_completed (completed_frames st)))
       | None => mret tt
       end)).
    apply keeps_session_bind; [unfold py_div; ks_solve|]. intros fraction.
    destruct (truthy _); [apply keeps_session_edit_or_send|done].
  - destruct (truthy _) as [mid|]; [apply keeps_session_edit_or_send|].
    revert w. apply keeps_session_bind; [apply keeps_session_send_telegram_message|done].
Qed.

(** The completion branch records the render, and nothing else. *)
Lemma report_outcome_records node st d w :
  Z.of_nat (size (completed_frames st)) = total_frames st →
  SESSION_RENDERS (report_outcome CHAT_ID host node st d w).1
  = SESSION_RENDERS (update_render_stats (path node) d
                       (Z.of_nat (size (completed_frames st))) w).1.
Proof.
  intros Heq. unfold report_outcome.
  rewrite decide_False by lia. rewrite decide_True by done.
  rewrite bind_run. unfold update_render_stats at 1. rewrite run_modify. cbv beta iota.
  change (set_SESSION_RENDERS _ w)
    with (update_render_stats (path node) d (Z.of_nat (size (completed_frames st))) w).1.
  set (w1 := (update_render_stats _ _ _ w).1).
  revert w1. apply keeps_session_bind; [apply keeps_session_get_render_stats|].
  intros stats. apply keeps_session_bind; [apply keeps_session_send_preview|]. intros _.
  destruct stats as [view|]; [|done].
  apply keeps_session_bind.
  - destruct (truthy _); [apply keeps_session_edit_or_send|].
    apply keeps_session_bind; [apply keeps_session_send_telegram_message|done].
  - intros _. apply keeps_session_bind; [apply keeps_session_send_telegram_message|done].
Qed.

End Session.

(** X9.  Only a completed render enters the session statistics.  A PostRender
    event handled for a tracked node whose completed frames number exactly
    total_frames records one render, with the elapsed time and that number of
    frames, under the node's path; every other event, and every event while
    notifications are disabled, leaves SESSION_RENDERS as it is. *)
Theorem statistics_only_from_completed_renders CHAT_ID host w e :
  let w' := handle CHAT_ID host w e in
  (∀ st, NOTIFICATIONS_ENABLED w = true → ev_type e = PostRender →
     CURRENT_RENDERS w !! path (ev_node e) = Some st →
     Z.of_nat (size (completed_frames st)) = total_frames st →
     SESSION_RENDERS w'
     = SESSION_RENDERS (update_render_stats (path (ev_node e))
                          (clock host (ticks w) - start_time st)%Qc
                          (Z.of_nat (size (completed_frames st))) w).1)
  ∧ ((∀ st, NOTIFICATIONS_ENABLED w = true → ev_type e = PostRender →
        CURRENT_RENDERS w !! path (ev_node e) = Some st →
        Z.of_nat (size (completed_frames st)) ≠ total_frames st) →
     SESSION_RENDERS w' = SESSION_RENDERS w).
Proof.
  cbv zeta. destruct e as [node ev ft]. cbn [ev_node ev_type ev_frame]. split.
  - intros st Hen -> E Heq. unfold handle. cbn [ev_node ev_type ev_frame].
    destruct (on_render_event_PostRender CHAT_ID host node ft w st Hen E)
      as (w1 & Hrun & ->).
    pose proof (report_outcome_records CHAT_ID host node st
                  (clock host (ticks w) - start_time st)%Qc (tick w) Heq) as Hs.
    rewrite Hrun in Hs. simpl in *. by rewrite Hs.
  - intros Hnot.
    destruct (NOTIFICATIONS_ENABLED w) eqn:Hen; [|by rewrite handle_disabled].
    unfold handle. cbn [ev_node ev_type ev_frame].
    destruct ev.
    + rewrite on_render_event_enabled by done.
      apply (keeps_session_try_except _ _ (keeps_session_on_PreRender CHAT_ID host node)
               (keeps_session_except CHAT_ID host node)).
    + rewrite on_render_event_enabled by done.
      apply (keeps_session_try_except _ _ (keeps_session_on_PostFrame CHAT_ID host node ft)
               (keeps_session_except CHAT_ID host node)).
    + destruct (CURRENT_RENDERS w !! path node) as [st|] eqn:E.
      * destruct (on_render_event_PostRender CHAT_ID host node ft w st Hen E)
          as (w1 & Hrun & ->).
        pose proof (report_outcome_keeps_session CHAT_ID host node st
                      (clock host (ticks w) - start_time st)%Qc (tick w)
                      (Hnot st eq_refl eq_refl eq_refl)) as Hs.
        rewrite Hrun in Hs. simpl in *. by rewrite Hs.
      * rewrite on_render_event_enabled by done.
        unfold try_except, on_render_event_try. by rewrite on_PostRender_untracked.
    + by rewrite on_render_event_enabled.
Qed.

(** The interrupted render of frames 1..2 is not recorded. *)
Lemma statistics_only_from_completed_renders_witness :
  SESSION_RENDERS (handle demo_chat demo_host world_one_of_two
                     (event mantra_1_2 PostRender 0))
  = SESSION_RENDERS world_one_of_two.
Proof.
  apply (statistics_only_from_completed_renders demo_chat demo_host world_one_of_two
           (event mantra_1_2 PostRender 0)).
  intros st _ _ Hst. vm_compute in Hst. injection Hst as <-. by vm_compute.
Defined.

(** ** Callback registration *)

Section Registering.
Variable sh : SceneHost.

Lemma remove_fold_calls scene : ∀ r,
  let r' := foldl (remove_callbacks_of sh) r scene in
  host_calls r'
  = host_calls r
    ++ ((λ n, removeAllEventCallbacks (path n))
          <$> filter (λ n, is_render_node n = true) scene).
Proof.
  induction scene as [|node scene IH]; intros r; simpl; [by rewrite app_nil_r|].
  rewrite IH. unfold remove_callbacks_of.
  destruct (is_render_node node) eqn:Hr.
  - rewrite filter_cons_True by done. simpl. by rewrite <-(assoc_L (++)).
  - rewrite filter_cons_False; [done|]. by rewrite Hr.
Qed.

Lemma add_fold_registry scene : ∀ r,
  CALLBACK_REGISTRY (foldl (add_callback_to sh) r scene)
  = CALLBACK_REGISTRY r ∪ list_to_set (path <$> filter (registrable sh) scene).
Proof.
  induction scene as [|node scene IH]; intros r; simpl; [set_solver|].
  rewrite IH. unfold add_callback_to.
  destruct (is_render_node node) eqn:Hr.
  2:{ rewrite filter_cons_False; [done|]. intros [? _]. congruence. }
  cbv zeta. case_decide as Hin.
  - destruct (decide (registrable sh node)).
    + rewrite filter_cons_True by done. simpl. set_solver.
    + by rewrite filter_cons_False.
  - destruct (add_raises sh (path node)) eqn:Ha.
    + rewrite filter_cons_False; [done|]. intros [_ ?]. congruence.
    + rewrite filter_cons_True by done. simpl. set_solver.
Qed.

Lemma add_fold_calls scene : ∀ r,
  let r' := foldl (add_callback_to sh) r scene in
  ∃ adds, host_calls r' = host_calls r ++ adds
    ∧ Forall (λ c, ∃ n, n ∈ scene ∧ is_render_node n = true
                        ∧ c = addRenderEventCallback (path n)) adds
    ∧ ∀ n, n ∈ scene → is_render_node n = true →
           path n ∈ CALLBACK_REGISTRY r ∨ addRenderEventCallback (path n) ∈ adds.
Proof.
  induction scene as [|node scene IH]; intros r; simpl.
  - exists []. rewrite app_nil_r. split; [done|]. split; [done|]. set_solver.
  - destruct (IH (add_callback_to sh r node)) as (adds & Hcalls & Hall & Hevery).
    assert (Forall (λ c, ∃ n, n ∈ node :: scene ∧ is_render_node n = true
                              ∧ c = addRenderEventCallback (path n)) adds) as Hall'.
    { eapply Forall_impl; [exact Hall|]. intros c (n & Hn & Hr & ->).
      exists n. split; [by right|done]. }
    unfold add_callback_to in Hcalls, Hevery |- *.
    destruct (is_render_node node) eqn:Hr.
    2:{ exists adds. split; [done|]. split; [done|].
        intros n [->|Hn]%elem_of_cons Hrn; [congruence|by apply Hevery]. }
    cbv zeta in *. case_decide as Hin.
    { exists adds. split; [done|]. split; [done|].
      intros n [->|Hn]%elem_of_cons Hrn; [by left|by apply Hevery]. }
    assert (∃ r1, (if add_raises sh (path node)
                   then {| CALLBACK_REGISTRY := CALLBACK_REGISTRY r;
                           host_calls := host_calls r ++ [addRenderEventCallback (path node)];
                           ui_log := ui_log r ++ ["Error adding callback"];
                           callbacks_list := callbacks_list r |}
                   else {| CALLBACK_REGISTRY := CALLBACK_REGISTRY r ∪ {[path node]};
                           host_calls := host_calls r ++ [addRenderEventCallback (path node)];
                           ui_log := ui_log r;
                           callbacks_list := callbacks_list r |}) = r1
                  ∧ host_calls r1 = host_calls r ++ [addRenderEventCallback (path node)]
                  ∧ CALLBACK_REGISTRY r1 ⊆ CALLBACK_REGISTRY r ∪ {[path node]})
      as (r1 & Hr1 & Hc1 & Hreg1).
    { destruct (add_raises sh (path node)); eexists; (split; [done|]); simpl;
        (split; [done|set_solver]). }
    rewrite Hr1 in *. rewrite Hc1 in Hcalls.
    exists (addRenderEventCallback (path node) :: adds).
    split; [by rewrite Hcalls, <-(assoc_L (++))|]. split.
    + constructor; [|done]. exists node. split; [by left|done].
    + intros n [->|Hn]%elem_of_cons Hrn; [right; by left|].
      destruct (Hevery n Hn Hrn) as [Hreg|Hadd]; [|right; by right].
      apply Hreg1 in Hreg. apply elem_of_union in Hreg as [?|Hs]; [by left|].
      apply elem_of_singleton in Hs. rewrite Hs. right. by left.
Qed.

End Registering.

(** X10.  After [setup_render_callbacks], whatever the registry held before,
    CALLBACK_REGISTRY is exactly the set of paths of the render nodes of the
    scene (type ifd or usdrender_rop) on which adding the callback did not
    fail, and the list widget shows that same set. *)
Theorem setup_registers_render_nodes sh scene r :
  let r' := setup_render_callbacks sh scene r in
  CALLBACK_REGISTRY r' = list_to_set (path <$> filter (registrable sh) scene)
  ∧ callbacks_list r' = CALLBACK_REGISTRY r'.
Proof.
  cbv zeta. unfold setup_render_callbacks. simpl.
  rewrite add_fold_registry. simpl. split; [set_solver|done].
Qed.

(** X11.  [setup_render_callbacks] never calls a node that is not a render
    node of the scene; it first asks every render node to drop its event
    callbacks and then, since the registry has just been cleared, asks for a
    new render callback on every render node, each time it runs. *)
Theorem setup_calls_render_nodes_only sh scene r :
  let calls := new_calls r (setup_render_callbacks sh scene r) in
  Forall (λ c, ∃ n, n ∈ scene ∧ is_render_node n = true
                    ∧ (c = removeAllEventCallbacks (path n)
                       ∨ c = addRenderEventCallback (path n))) calls
  ∧ ∀ n, n ∈ scene → is_render_node n = true →
         removeAllEventCallbacks (path n) ∈ calls
         ∧ addRenderEventCallback (path n) ∈ calls.
Proof.
  cbv zeta. unfold setup_render_callbacks, new_calls. simpl.
  set (r1 := remove_all_callbacks sh scene r).
  destruct (add_fold_calls sh scene r1) as (adds & Hcalls & Hall & Hevery).
  cbv zeta in Hcalls. rewrite Hcalls.
  unfold r1, remove_all_callbacks. simpl.
  pose proof (remove_fold_calls sh scene r) as Hrem. cbv zeta in Hrem. rewrite Hrem.
  rewrite <-(assoc_L (++)), drop_app_length. split.
  - apply Forall_app. split.
    + apply Forall_fmap, Forall_forall. intros n [Hr Hn]%list_elem_of_filter.
      exists n. simpl. eauto.
    + eapply Forall_impl; [exact Hall|]. intros c (n & Hn & Hr & ->). eauto 10.
  - intros n Hn Hr. split.
    + apply elem_of_app. left. apply list_elem_of_fmap. exists n. split; [done|].
      by apply list_elem_of_filter.
    + apply elem_of_app. right.
      destruct (Hevery n Hn Hr) as [Hreg|Hadd]; [|done].
      unfold r1, remove_all_callbacks in Hreg. simpl in Hreg. set_solver.
Qed.

(** ** More on the preview media *)

Lemma py_range_length a b step :
  length (py_range a b step) = ((b - a + step - 1) / step)%nat.
Proof. unfold py_range. by rewrite length_fmap, length_seq. Qed.

Lemma sample_indices_length n :
  (30 < n)%nat → (30 ≤ length (sample_indices n) ≤ 39)%nat.
Proof.
  intros Hn. destruct (sample_indices_increasing n Hn) as (-> & _ & _).
  rewrite !length_app, !length_seq, py_range_length.
  set (m := (n - 20)%nat). replace (n - 10 - 10)%nat with m by lia.
  set (s := (m / 10)%nat).
  assert (0 < s)%nat as Hs by (apply Nat.div_str_pos; lia).
  pose proof (Nat.div_mod_eq m 10) as Hm. fold s in Hm.
  pose proof (Nat.mod_upper_bound m 10 ltac:(lia)) as Hr.
  assert (10 ≤ (m + s - 1) / s)%nat.
  { apply Nat.div_le_lower_bound; nia. }
  assert ((m + s - 1) / s < 20)%nat.
  { apply Nat.Div0.div_lt_upper_bound; nia. }
  lia.
Qed.

Section Animation.
Variable CHAT_ID : ChatId.
Variable host : Host.

(** Two or more matching files: the function returns, and the only media
    request it can make is the animation of the chosen files that convert. *)
Lemma send_animation_of_chosen node pattern chosen w :
  (2 ≤ length (sorted (glob host pattern)))%nat →
  (if decide (30 < length (sorted (glob host pattern)))%nat
   then sample_frames (sorted (glob host pattern))
   else Some (sorted (glob host pattern))) = Some chosen →
  let images := filter (λ f, convert host f = Converted) chosen in
  let new := new_effects w (send_telegram_animation CHAT_ID host node pattern w).1 in
  (∀ e, e ∈ new → is_media e → e = Post (sendAnimation CHAT_ID images))
  ∧ (images ≠ [] → Post (sendAnimation CHAT_ID images) ∈ new)
  ∧ (images = [] → (∀ e, e ∈ new → ¬ is_media e)
                   ∧ (send_telegram_animation CHAT_ID host node pattern w).2 = Return false)
  ∧ ∃ sent, (send_telegram_animation CHAT_ID host node pattern w).2 = Return sent.
Proof.
  intros Hlen Hchosen. cbv zeta. unfold send_telegram_animation.
  destruct (sorted (glob host pattern)) as [|f1 [|f2 rest]] eqn:Hglob;
    [simpl in Hlen; lia..|].
  set (frames := f1 :: f2 :: rest) in *.
  set (images := filter _ chosen).
  assert (∀ w a, (collect_images host chosen w).2 = Return a → a = images) as Hcoll.
  { intros w0 a Ha. rewrite collect_images_returns in Ha. by injection Ha as <-. }
  assert ((if decide (30 < length frames)%nat
           then match sample_frames frames with
                | Some sampled => mret sampled
                | None => raise IndexError
                end
           else mret frames) = (mret chosen : M (list string))) as ->.
  { case_decide; [by rewrite Hchosen|]. by injection Hchosen as <-. }
  set (c := try_except _ _).
  assert (io (λ e, is_media e → e = Post (sendAnimation CHAT_ID images)) c) as Hio.
  { subst c. apply io_try_except; [|intros; io_solve].
    apply (io_bind_val _ (λ a, a = chosen)); [io_solve|by intros ? ? [= <-]|intros ? ->].
    apply io_bind; [io_solve|intros _].
    apply (io_bind_val _ (λ a, a = images));
      [by apply io_collect_images_logs|exact Hcoll|intros ? ->].
    destruct images as [|img images']; io_solve. }
  assert (∀ e, e ∈ new_effects w (c w).1 → is_media e →
               e = Post (sendAnimation CHAT_ID images)) as Hmedia.
  { intros e He. pose proof (io_new _ _ _ (Hio w)) as Hnew.
    rewrite Forall_forall in Hnew. by apply Hnew. }
  split; [done|]. split; [|split].
  - intros Himages. subst c.
    apply (posts_in_try_except (λ _, True)); [| |intros; io_solve].
    + apply (posts_in_bind_r (λ _, True) (λ a, a = chosen)); [io_solve|by eexists| |].
      * intros ? ->.
        apply (posts_in_bind_r (λ _, True) (λ _, True));
          [io_solve|apply log_message_returns|intros _ _|].
        -- apply (posts_in_bind_r (λ _, True) (λ a, a = images));
             [by apply io_collect_images_logs| | |].
           ++ intros w0. eexists. split; [apply collect_images_returns|done].
           ++ intros ? ->. destruct images as [|img images'] eqn:Himg; [done|].
              apply (posts_in_bind_r (λ _, True) (λ _, True));
                [io_solve|apply log_message_returns|intros _ _|intros; io_solve].
              apply (posts_in_bind_r (λ _, True) (λ _, True));
                [io_solve|apply log_message_returns|intros _ _|intros; io_solve].
              apply (posts_in_bind_l (λ _, True));
                [apply posts_in_requests_post|io_solve|intros; io_solve].
           ++ intros images0. destruct images0; io_solve.
        -- intros _. apply io_bind; [by apply io_collect_images_logs|].
           intros images0. destruct images0; io_solve.
      * intros frames0. apply io_bind; [io_solve|intros _].
        apply io_bind; [by apply io_collect_images_logs|].
        intros images0. destruct images0; io_solve.
    + apply io_bind; [io_solve|intros frames0].
      apply io_bind; [io_solve|intros _].
      apply io_bind; [by apply io_collect_images_logs|].
      intros images0. destruct images0; io_solve.
  - intros Himages. split.
    + intros e He Hm. specialize (Hmedia e He Hm). subst e.
      assert (io (says (λ _, False)) c) as Hlogs.
      { subst c. apply io_try_except; [|intros; io_solve].
        apply (io_bind_val _ (λ a, a = chosen)); [io_solve|by intros ? ? [= <-]|intros ? ->].
        apply io_bind; [io_solve|intros _].
        apply (io_bind_val _ (λ a, a = images));
          [by apply io_collect_images_logs|exact Hcoll|intros ? ->].
        rewrite Himages. io_solve. }
      pose proof (io_new _ _ _ (Hlogs w)) as Hnew. rewrite Forall_forall in Hnew.
      by apply (Hnew _ He).
    + subst c. unfold try_except. rewrite bind_run, run_mret. cbv beta iota.
      rewrite bind_run. simpl. rewrite bind_run.
      pose proof (collect_images_returns host chosen) as Hret. fold images in Hret.
      match goal with |- context [collect_images host chosen ?w0] =>
        specialize (Hret w0); destruct (collect_images host chosen w0) as [w2 r2] end.
      simpl in Hret. subst r2. by rewrite Himages.
  - subst c. apply never_raises_try_except. intros e.
    apply never_raises_bind; [apply never_raises_emit|]. intros _.
    apply never_raises_mret.
Qed.

End Animation.

(** X12.  When more than 30 files match, the sample holds between 30 and 39
    files however many files there are, so no animation posted by
    [send_telegram_animation] has more than 39 frames. *)
Theorem preview_sample_size CHAT_ID host node pattern w :
  let frames := sorted (glob host pattern) in
  (30 < length frames)%nat →
  ∃ sampled, sample_frames frames = Some sampled
    ∧ (30 ≤ length sampled ≤ 39)%nat
    ∧ ∀ files,
        Post (sendAnimation CHAT_ID files)
          ∈ new_effects w (send_telegram_animation CHAT_ID host node pattern w).1 →
        (length files ≤ 39)%nat.
Proof.
  intros frames Hlen.
  destruct (sample_frames_spec frames Hlen) as (sampled & Hs & _).
  exists sampled. split; [done|].
  assert (length sampled = length (sample_indices (length frames))) as Hsize.
  { unfold sample_frames in Hs.
    destruct (sample_indices_increasing _ Hlen) as (_ & Hsorted & _).
    rewrite sorted_set_increasing in Hs by done.
    apply mapM_Some_1, Forall2_length in Hs. done. }
  pose proof (sample_indices_length _ Hlen) as Hbound. split; [lia|].
  intros files Hin.
  destruct (send_animation_of_chosen CHAT_ID host node pattern sampled w) as (Hmedia & _).
  { fold frames. lia. }
  { fold frames. by rewrite decide_True. }
  specialize (Hmedia _ Hin I). injection Hmedia as ->.
  pose proof (length_filter (λ f, convert host f = Converted) sampled). lia.
Qed.

(** With 31 files on disk the sample is within the bounds. *)
Lemma preview_sample_size_witness :
  ∃ sampled, sample_frames (sorted (glob many_files_host "*")) = Some sampled
    ∧ (30 ≤ length sampled ≤ 39)%nat.
Proof.
  destruct (preview_sample_size demo_chat many_files_host mantra_1_2 "*" enabled_world)
    as (sampled & Hs & Hlen & _).
  - vm_compute. lia.
  - exists sampled. split; [exact Hs|exact Hlen].
Defined.

(** X13.  When between 2 and 30 files match, nothing is sampled: the only
    media request [send_telegram_animation] can make is the animation of all
    matching files that convert, in sorted order, and it is posted when at
    least one converts; when none converts, no media request is made and the
    function returns False.  In either case the function returns and does
    not raise. *)
Theorem animation_from_all_files CHAT_ID host node pattern w :
  let frames := sorted (glob host pattern) in
  (2 ≤ length frames ≤ 30)%nat →
  let images := filter (λ f, convert host f = Converted) frames in
  let new := new_effects w (send_telegram_animation CHAT_ID host node pattern w).1 in
  (∀ e, e ∈ new → is_media e → e = Post (sendAnimation CHAT_ID images))
  ∧ (images ≠ [] → Post (sendAnimation CHAT_ID images) ∈ new)
  ∧ (images = [] → (∀ e, e ∈ new → ¬ is_media e)
                   ∧ (send_telegram_animation CHAT_ID host node pattern w).2 = Return false)
  ∧ ∃ sent, (send_telegram_animation CHAT_ID host node pattern w).2 = Return sent.
Proof.
  intros frames Hlen. apply send_animation_of_chosen; fold frames; [lia|].
  by rewrite decide_False by lia.
Qed.

(** Two files on disk, both converting. *)
Lemma animation_from_all_files_witness :
  Post (sendAnimation demo_chat ["beauty.0001.exr"; "beauty.0002.exr"])
    ∈ new_effects enabled_world
        (send_telegram_animation demo_chat demo_host mantra_1_2 "*" enabled_world).1.
Proof.
  apply (animation_from_all_files demo_chat demo_host mantra_1_2 "*" enabled_world).
  - vm_compute. lia.
  - by vm_compute.
Defined.

(** X14.  When exactly one file matches, [send_telegram_animation] returns
    True only if the file converts and the photo post is answered ok; it
    returns False if the file is unreadable or the answer is not ok; and if
    resizing fails or the post itself fails, its except clause reads the
    unbound [temp_gif] and the function raises NameError instead of returning
    False. *)
Theorem single_file_outcome CHAT_ID host node pattern f w :
  sorted (glob host pattern) = [f] →
  (send_telegram_animation CHAT_ID host node pattern w).2 =
    match convert host f with
    | Unreadable => Return false
    | ResizeRaises => Raise NameError
    | Converted =>
        match http host (posts w) with
        | Responds true _ => Return true
        | Responds false _ => Return false
        | NetworkError => Raise NameError
        end
    end.
Proof.
  intros Hglob. unfold send_telegram_animation. rewrite Hglob.
  unfold try_except. rewrite bind_run. simpl.
  destruct (convert host f); [|done..].
  rewrite bind_run. simpl. rewrite bind_run. unfold requests_post. simpl.
  by destruct (http host (posts w)) as [[] ?|].
Qed.

(** One file on disk while the chat service is unreachable. *)
Lemma single_file_outcome_witness :
  (send_telegram_animation demo_chat
     {| clock := clock demo_host; http := λ _, NetworkError;
        glob := λ _, ["beauty.0001.exr"]; convert := convert demo_host;
        frame_pattern := frame_pattern demo_host |}
     mantra_1_2 "*" enabled_world).2 = Raise NameError.
Proof.
  by rewrite (single_file_outcome demo_chat _ mantra_1_2 "*" "beauty.0001.exr").
Defined.

(** ** Chat ids typed by the user *)

Lemma split_commas_length s : length (split_commas s) = S (commas s).
Proof.
  induction s as [|c s IH]; [done|]. simpl.
  case_decide; simpl; [by rewrite IH|].
  destruct (split_commas s); simpl in *; lia.
Qed.

Lemma split_commas_comma_free s : Forall comma_free (split_commas s).
Proof.
  induction s as [|c s IH]; simpl.
  - repeat constructor.
  - case_decide.
    + constructor; [constructor|done].
    + destruct (split_commas s) as [|first others].
      * repeat constructor. done.
      * apply Forall_cons in IH as [Hf Ho]. constructor; [|done].
        by constructor.
Qed.

Lemma lstrip_comma_free s : comma_free s → comma_free (lstrip s).
Proof.
  induction s as [|c s IH]; [done|]. simpl. intros [Hc Hs]%Forall_cons.
  destruct (is_space c); [by apply IH|by constructor].
Qed.

Lemma rstrip_comma_free s : comma_free s → comma_free (rstrip s).
Proof.
  induction s as [|c s IH]; [done|]. simpl. intros [Hc Hs]%Forall_cons.
  specialize (IH Hs). destruct (rstrip s) as [|d kept].
  - destruct (is_space c); [constructor|by repeat constructor].
  - by constructor.
Qed.

Lemma lstrip_first s c : first_char (lstrip s) = Some c → is_space c = false.
Proof.
  induction s as [|d s IH]; [done|]. simpl.
  destruct (is_space d) eqn:Hd; [done|]. simpl. by intros [= <-].
Qed.

Lemma rstrip_last s c : last_char (rstrip s) = Some c → is_space c = false.
Proof.
  revert c. induction s as [|d s IH]; intros c; [done|]. simpl.
  destruct (rstrip s) as [|e kept] eqn:E.
  - destruct (is_space d) eqn:Hd; [done|]. simpl. by intros [= <-].
  - change (last_char (String d (String e kept)))
      with (match last_char (String e kept) with None => Some d | Some x => Some x end).
    destruct (last_char (String e kept)) as [x|] eqn:El.
    + intros [= <-]. by apply IH.
    + simpl in El. by destruct (last_char kept).
Qed.

(** [lstrip] keeps the last character of what it leaves. *)
Lemma lstrip_last s c :
  last_char (lstrip s) = Some c → last_char s = Some c.
Proof.
  induction s as [|d s IH]; [done|]. simpl.
  destruct (is_space d); [|done]. intros H. by rewrite (IH H).
Qed.

Lemma strip_clean s : comma_free s → clean_id (strip s).
Proof.
  intros Hs. unfold strip. split; [|split].
  - by apply lstrip_comma_free, rstrip_comma_free.
  - intros c. apply lstrip_first.
  - intros c H%lstrip_last. by eapply rstrip_last.
Qed.

(** X15.  Whatever the user types, the list of chat ids built from it has one
    entry more than the text has commas, so it is never empty (the empty text
    gives the one chat id that is the empty string), and no entry holds a
    comma or begins or ends with white space. *)
Theorem parse_chat_ids_shape (chat_id : string) :
  length (parse_chat_ids chat_id) = S (commas chat_id)
  ∧ configured (ChatList (parse_chat_ids chat_id))
  ∧ Forall clean_id (parse_chat_ids chat_id).
Proof.
  assert (length (parse_chat_ids chat_id) = S (commas chat_id)) as Hlen.
  { unfold parse_chat_ids. by rewrite length_fmap, split_commas_length. }
  split; [done|]. split.
  - simpl. intros E. by rewrite E in Hlen.
  - unfold parse_chat_ids.
    apply Forall_fmap. eapply Forall_impl; [apply split_commas_comma_free|].
    intros s. apply strip_clean.
Qed.

(** A text with blanks around the ids and an empty last field. *)
Lemma parse_chat_ids_example :
  parse_chat_ids " 12 , -100 34,,  " = ["12"; "-100 34"; ""; ""]
  ∧ parse_chat_ids "" = [""].
Proof. split; reflexivity. Qed.
